(** * saas-cli: the column specification parser and its two emitters

    A shallow embedding of [src/utils/column-parser.ts] (parser, SQL
    emitter, Drift emitter, case helpers), of the validators of
    [src/utils/validation.ts] and of [truncate] and [maskSecret] of
    [src/utils/output.ts], followed by the properties proved about them.

    Modelling conventions.
    - A JavaScript string is a [string], and the strings embedded are the
      ASCII ones, those whose code units are all below 128 ([Js.isAscii]).
      On these, case mapping and the whitespace class are those of the
      code. A statement that would be false of the code for a string with
      other characters says so with a hypothesis.
    - A function that can [throw] returns a [result]; a function that cannot
      returns its value directly.
    - An optional field of [ColumnSpec] is an [option]; [None] is
      [undefined].
    - A [typeMap] object literal holds the entries written in it and
      inherits the members of [Object.prototype]: a lookup finds the
      literal's own entry first and an inherited member otherwise, as
      [typeMap[key]] does. So the type of a column is a [TypeValue]: a
      string, or one of the inherited members. *)

From Stdlib Require Import Ascii String List Bool Arith ZArith Lia.
From stdpp Require Import base option list strings gmap.

(** ** JavaScript string primitives *)

Module Js.

Local Open Scope char_scope.

(** A code unit below 128. *)
Definition isAscii (c : ascii) : bool := (nat_of_ascii c <? 128)%nat.

(** [A-Z] *)
Definition isUpper (c : ascii) : bool :=
  (65 <=? nat_of_ascii c)%nat && (nat_of_ascii c <=? 90)%nat.

(** [a-z] *)
Definition isLower (c : ascii) : bool :=
  (97 <=? nat_of_ascii c)%nat && (nat_of_ascii c <=? 122)%nat.

(** [0-9] *)
Definition isDigit (c : ascii) : bool :=
  (48 <=? nat_of_ascii c)%nat && (nat_of_ascii c <=? 57)%nat.

(** The class [\s], and the characters [trim] strips, among the code units
    below 128: tab, line feed, vertical tab, form feed, carriage return,
    space. *)
Definition isSpace (c : ascii) : bool :=
  match c with
  | "009" | "010" | "011" | "012" | "013" | " " => true
  | _ => false
  end.

(** The characters [.] does not match: line feed and carriage return. *)
Definition isLineTerminator (c : ascii) : bool :=
  match c with
  | "010" | "013" => true
  | _ => false
  end.

(** [c.toLowerCase()] and [c.toUpperCase()] on a code unit below 128:
    only the letters [A-Z] and [a-z] change. *)
Definition lowerChar (c : ascii) : ascii :=
  if isUpper c then ascii_of_nat (nat_of_ascii c + 32) else c.

Definition upperChar (c : ascii) : ascii :=
  if isLower c then ascii_of_nat (nat_of_ascii c - 32) else c.

Fixpoint mapChars (f : ascii -> ascii) (s : string) : string :=
  match s with
  | EmptyString => EmptyString
  | String c r => String (f c) (mapChars f r)
  end.

(** [s.toLowerCase()] on an ASCII string; [c.toUpperCase()] on a single
    ASCII character is [upperChar]. *)
Definition toLowerCase (s : string) : string := mapChars lowerChar s.

Fixpoint allChars (p : ascii -> bool) (s : string) : bool :=
  match s with
  | EmptyString => true
  | String c r => p c && allChars p r
  end.

(** [!s] on a string: only the empty string is falsy. *)
Definition isEmpty (s : string) : bool :=
  match s with
  | EmptyString => true
  | String _ _ => false
  end.

Fixpoint trimStart (s : string) : string :=
  match s with
  | EmptyString => EmptyString
  | String c r => if isSpace c then trimStart r else s
  end.

Fixpoint trimEnd (s : string) : string :=
  match s with
  | EmptyString => EmptyString
  | String c r =>
      let r' := trimEnd r in
      if isSpace c && isEmpty r' then EmptyString else String c r'
  end.

(** [s.trim()] on an ASCII string. *)
Definition trim (s : string) : string := trimEnd (trimStart s).

(** [s.split(sep)] for a one-character separator: never an empty list,
    ["".split(sep)] is [[""]]. *)
Fixpoint split (sep : ascii) (s : string) : list string :=
  match s with
  | EmptyString => [EmptyString]
  | String c r =>
      if Ascii.eqb c sep then EmptyString :: split sep r
      else match split sep r with
           | h :: t => String c h :: t
           | [] => [String c EmptyString]
           end
  end.

(** [parts.join(sep)] *)
Definition join (sep : string) (parts : list string) : string :=
  String.concat sep parts.

(** [parts.slice(0, -1)] and [parts[parts.length - 1]] *)
Definition sliceInit (parts : list string) : list string := removelast parts.
Definition lastElement (parts : list string) : option string := last parts.

(** [a || b] where [a] is a string or [undefined]: [b] is taken when [a]
    is [undefined] or empty. *)
Definition orElse (a : option string) (b : string) : string :=
  match a with
  | Some s => if isEmpty s then b else s
  | None => b
  end.

(** Truthiness of an optional boolean. *)
Definition truthy (b : option bool) : bool :=
  match b with
  | Some true => true
  | _ => false
  end.

(** If [s] starts with [kw], compared case-insensitively as a regular
    expression with the [i] flag does ([kw] is given in lower case),
    the rest of [s]. *)
Fixpoint stripPrefixCI (kw s : string) : option string :=
  match kw, s with
  | EmptyString, _ => Some s
  | String k kw', String c s' =>
      if Ascii.eqb (lowerChar c) k then stripPrefixCI kw' s' else None
  | String _ _, EmptyString => None
  end.

(** If [s] ends with the character [c], what stands before it. *)
Fixpoint stripLast (c : ascii) (s : string) : option string :=
  match s with
  | EmptyString => None
  | String d EmptyString => if Ascii.eqb d c then Some EmptyString else None
  | String d r => String d <$> stripLast c r
  end.

End Js.

(** ** Objects used as lookup tables

    The three [typeMap] tables are object literals. [typeMap[key]] returns
    the literal's own entry for [key] when there is one, and otherwise the
    member of [Object.prototype] of that name, if any: a function, or for
    [__proto__] the prototype object itself. *)

Inductive PrototypeMember :=
| ObjectConstructor
| DefineGetter
| DefineSetter
| HasOwnProperty
| LookupGetter
| LookupSetter
| IsPrototypeOf
| PropertyIsEnumerable
| ToString
| ValueOf
| ProtoAccessor
| ToLocaleString.

Definition prototypeMembers : list PrototypeMember :=
  [ObjectConstructor; DefineGetter; DefineSetter; HasOwnProperty; LookupGetter;
   LookupSetter; IsPrototypeOf; PropertyIsEnumerable; ToString; ValueOf;
   ProtoAccessor; ToLocaleString].

(** The property name under which [Object.prototype] holds the member. *)
Definition memberName (m : PrototypeMember) : string :=
  match m with
  | ObjectConstructor => "constructor"
  | DefineGetter => "__defineGetter__"
  | DefineSetter => "__defineSetter__"
  | HasOwnProperty => "hasOwnProperty"
  | LookupGetter => "__lookupGetter__"
  | LookupSetter => "__lookupSetter__"
  | IsPrototypeOf => "isPrototypeOf"
  | PropertyIsEnumerable => "propertyIsEnumerable"
  | ToString => "toString"
  | ValueOf => "valueOf"
  | ProtoAccessor => "__proto__"
  | ToLocaleString => "toLocaleString"
  end.

(** [String(member)], as Node prints it: the source text of a built-in
    function, and [[object Object]] for the prototype object that
    [__proto__] gives. [constructor] is the function [Object]. *)
Definition memberText (m : PrototypeMember) : string :=
  match m with
  | ObjectConstructor => "function Object() { [native code] }"
  | ProtoAccessor => "[object Object]"
  | _ => "function " +:+ memberName m +:+ "() { [native code] }"
  end.

(** What the [type] of a column can hold: a string, or a member inherited
    from [Object.prototype] that a lookup returned in its place. *)
Inductive TypeValue :=
| TypeName (s : string)
| Inherited (m : PrototypeMember).

Coercion TypeName : string >-> TypeValue.

(** [String(v)]: what a template literal prints for [v], and the property
    key [v] stands for in [typeMap[v]]. *)
Definition typeText (v : TypeValue) : string :=
  match v with
  | TypeName s => s
  | Inherited m => memberText m
  end.

(** [v === s] for a string [s]. *)
Definition typeIs (v : TypeValue) (s : string) : bool :=
  match v with
  | TypeName t => String.eqb t s
  | Inherited _ => false
  end.

(** The member [Object.prototype] holds under [key], if any. *)
Definition inheritedMember (key : string) : option PrototypeMember :=
  List.find (fun m => String.eqb (memberName m) key) prototypeMembers.

(** [typeMap[key]]: [None] is [undefined]. *)
Definition getProperty (typeMap : gmap string string) (key : TypeValue)
  : option TypeValue :=
  match typeMap !! typeText key with
  | Some v => Some (TypeName v)
  | None => Inherited <$> inheritedMember (typeText key)
  end.

(** [a || b] where [a] is the result of a lookup: [b] is taken when [a] is
    [undefined] or the empty string; functions and objects are truthy. *)
Definition orValue (a : option TypeValue) (b : TypeValue) : TypeValue :=
  match a with
  | Some (TypeName s) => if Js.isEmpty s then b else TypeName s
  | Some (Inherited m) => Inherited m
  | None => b
  end.

(** ** Errors

    [CLIError] of [src/utils/error.ts]: a message, an exit code and a hint.
    Every error the parser raises has exit code 1 ([GENERAL_ERROR]). *)

Record CLIError := mkCLIError {
  message : string;
  exitCode : nat;
  hint : string
}.

Inductive result (A : Type) : Type :=
| Ok (a : A)
| Throw (e : CLIError).

Arguments Ok {A} a.
Arguments Throw {A} e.

(** [result] is a monad: a [Throw] aborts what follows it. *)
#[export] Instance result_ret : MRet result := fun A a => Ok a.

#[export] Instance result_bind : MBind result := fun A B k r =>
  match r with
  | Ok a => k a
  | Throw e => Throw e
  end.

(** The double-quote character, for the error messages. *)
Definition dq : string := String "034"%char EmptyString.

(** ** Identifier validation ([src/utils/validation.ts]) *)

(** [[a-zA-Z_]] and [[a-zA-Z0-9_]] *)
Definition isIdentStart (c : ascii) : bool :=
  Js.isLower c || Js.isUpper c || Ascii.eqb c "_"%char.

Definition isIdentPart (c : ascii) : bool :=
  isIdentStart c || Js.isDigit c.

(** [IDENTIFIER_REGEX.test(name)] with
    [IDENTIFIER_REGEX = /^[a-zA-Z_][a-zA-Z0-9_]*$/] *)
Definition validateIdentifier (name : string) : bool :=
  match name with
  | EmptyString => false
  | String c r => isIdentStart c && Js.allChars isIdentPart r
  end.

Definition assertValidIdentifier (name type : string) : result unit :=
  if negb (validateIdentifier name) then
    Throw (mkCLIError
             ("Invalid " +:+ type +:+ ": " +:+ dq +:+ name +:+ dq)
             1
             (type +:+ " must start with a letter or underscore, and contain only letters, numbers, and underscores."))
  else Ok tt.

(** ** Column descriptors ([ColumnSpec] of [src/types/index.ts]) *)

Record ColumnSpec := mkColumnSpec {
  name : string;
  type : TypeValue;
  isPrimaryKey : option bool;
  isForeignKey : option bool;
  foreignKeyTable : option string;
  foreignKeyColumn : option string;
  isNullable : option bool;
  defaultValue : option string;
  isAutoIncrement : option bool
}.

(** The object literal [{ name, type }]: every optional field is absent. *)
Definition newColumn (name : string) (type : TypeValue) : ColumnSpec :=
  mkColumnSpec name type None None None None None None None.

(** Field assignments [column.f = v]. *)
Definition setPrimaryKey (c : ColumnSpec) (v : bool) : ColumnSpec :=
  mkColumnSpec (name c) (type c) (Some v) (isForeignKey c) (foreignKeyTable c)
    (foreignKeyColumn c) (isNullable c) (defaultValue c) (isAutoIncrement c).

Definition setAutoIncrement (c : ColumnSpec) (v : bool) : ColumnSpec :=
  mkColumnSpec (name c) (type c) (isPrimaryKey c) (isForeignKey c) (foreignKeyTable c)
    (foreignKeyColumn c) (isNullable c) (defaultValue c) (Some v).

Definition setNullable (c : ColumnSpec) (v : bool) : ColumnSpec :=
  mkColumnSpec (name c) (type c) (isPrimaryKey c) (isForeignKey c) (foreignKeyTable c)
    (foreignKeyColumn c) (Some v) (defaultValue c) (isAutoIncrement c).

Definition setForeignKey (c : ColumnSpec) (v : bool) : ColumnSpec :=
  mkColumnSpec (name c) (type c) (isPrimaryKey c) (Some v) (foreignKeyTable c)
    (foreignKeyColumn c) (isNullable c) (defaultValue c) (isAutoIncrement c).

Definition setForeignKeyTable (c : ColumnSpec) (v : string) : ColumnSpec :=
  mkColumnSpec (name c) (type c) (isPrimaryKey c) (isForeignKey c) (Some v)
    (foreignKeyColumn c) (isNullable c) (defaultValue c) (isAutoIncrement c).

(** [parts[parts.length - 1]] may in general be [undefined], so the new
    value is optional. *)
Definition setForeignKeyColumn (c : ColumnSpec) (v : option string) : ColumnSpec :=
  mkColumnSpec (name c) (type c) (isPrimaryKey c) (isForeignKey c) (foreignKeyTable c)
    v (isNullable c) (defaultValue c) (isAutoIncrement c).

Definition setDefaultValue (c : ColumnSpec) (v : string) : ColumnSpec :=
  mkColumnSpec (name c) (type c) (isPrimaryKey c) (isForeignKey c) (foreignKeyTable c)
    (foreignKeyColumn c) (isNullable c) (Some v) (isAutoIncrement c).

(** ** The parser *)

(** [normalizeType]: the alias table, then the lower-cased name itself.
    The table is the object literal [typeMap]; [normalizeTypeMap] holds its
    own entries. *)
Definition normalizeTypeMap : gmap string string :=
  list_to_map
    [ ("str", "text"); ("string", "text"); ("varchar", "text"); ("char", "text");
      ("int", "integer"); ("number", "integer"); ("bigint", "bigint");
      ("float", "real"); ("double", "real"); ("decimal", "real");
      ("bool", "boolean"); ("boolean", "boolean");
      ("date", "datetime"); ("timestamp", "datetime"); ("timestamptz", "datetime");
      ("time", "datetime"); ("datetime", "datetime");
      ("uuid", "uuid"); ("json", "jsonb"); ("jsonb", "jsonb");
      ("blob", "blob"); ("bytes", "blob"); ("binary", "blob") ].

Definition normalizeType (type : string) : TypeValue :=
  orValue (getProperty normalizeTypeMap (Js.toLowerCase type)) (Js.toLowerCase type).

(** [modifier.match(/^fk\(([^)]+)\)$/i)]: the captured group, when the
    modifier is [fk(], one or more characters other than [)], and a final
    [)]. *)
Definition fkMatch (modifier : string) : option string :=
  rest ← Js.stripPrefixCI "fk(" modifier;
  ref ← Js.stripLast ")" rest;
  if negb (Js.isEmpty ref) && Js.allChars (fun c => negb (Ascii.eqb c ")")) ref
  then Some ref else None.

(** [modifier.match(/^default\((.+)\)$/i)]: the captured group, when the
    modifier is [default(], one or more characters that are not line
    terminators, and a final [)]. The group is greedy, so it holds everything
    up to the last [)]. *)
Definition defaultMatch (modifier : string) : option string :=
  rest ← Js.stripPrefixCI "default(" modifier;
  value ← Js.stripLast ")" rest;
  if negb (Js.isEmpty value) && Js.allChars (fun c => negb (Js.isLineTerminator c)) value
  then Some value else None.

Definition unknownModifier (modifier : string) : CLIError :=
  mkCLIError ("Unknown modifier: " +:+ dq +:+ modifier +:+ dq) 1
    "Valid modifiers: pk, fk(table.column), nullable, default(value), autoincrement".

(** [parseModifier(column, modifier)]: the column after the assignment, or
    the error thrown. *)
Definition parseModifier (column : ColumnSpec) (modifier : string) : result ColumnSpec :=
  let mod' := Js.toLowerCase modifier in
  if String.eqb mod' "pk" || String.eqb mod' "primarykey" || String.eqb mod' "primary_key" then
    Ok (setPrimaryKey column true)
  else if String.eqb mod' "autoincrement" || String.eqb mod' "auto_increment"
          || String.eqb mod' "serial" then
    Ok (setAutoIncrement column true)
  else if String.eqb mod' "nullable" || String.eqb mod' "null" then
    Ok (setNullable column true)
  else
    match fkMatch modifier with
    | Some ref =>
        let column := setForeignKey column true in
        let parts := Js.split "." ref in
        if (2 <=? length parts)%nat then
          let column := setForeignKeyTable column (Js.join "." (Js.sliceInit parts)) in
          Ok (setForeignKeyColumn column (Js.lastElement parts))
        else
          let column := setForeignKeyTable column ref in
          Ok (setForeignKeyColumn column (Some "id"))
    | None =>
        match defaultMatch modifier with
        | Some value => Ok (setDefaultValue column value)
        | None => Throw (unknownModifier modifier)
        end
    end.

(** The loop [for (const mod of modifiers) parseModifier(column, mod)]. *)
Fixpoint parseModifiers (column : ColumnSpec) (modifiers : list string) : result ColumnSpec :=
  match modifiers with
  | [] => Ok column
  | modifier :: rest =>
      column' ← parseModifier column modifier;
      parseModifiers column' rest
  end.

Definition invalidDefinition (definition : string) : CLIError :=
  mkCLIError ("Invalid column definition: " +:+ dq +:+ definition +:+ dq) 1
    "Format: name:type[:modifiers] (e.g., id:int:pk, title:text, userId:uuid:fk(auth.users.id))".

Definition missingNameOrType (definition : string) : CLIError :=
  mkCLIError ("Missing name or type in column: " +:+ dq +:+ definition +:+ dq) 1
    "Each column must have a name and type".

Definition parseColumn (definition : string) : result ColumnSpec :=
  let segments := map Js.trim (Js.split ":" definition) in
  match segments with
  | name :: type :: modifiers =>
      if Js.isEmpty name || Js.isEmpty type then Throw (missingNameOrType definition)
      else parseModifiers (newColumn name (normalizeType type)) modifiers
  | _ => Throw (invalidDefinition definition)
  end.

(** The loop of [parseColumnSpec]: empty parts are skipped ([continue]),
    every other part is parsed and pushed on [columns]. *)
Fixpoint parseParts (columns : list ColumnSpec) (parts : list string)
  : result (list ColumnSpec) :=
  match parts with
  | [] => Ok columns
  | part :: rest =>
      if Js.isEmpty part then parseParts columns rest
      else
        column ← parseColumn part;
        parseParts (columns ++ [column]) rest
  end.

Definition parseColumnSpec (spec : string) : result (list ColumnSpec) :=
  parseParts [] (map Js.trim (Js.split "," spec)).

(** ** Case conversion helpers *)

(** [-] or whitespace: the class [[-\s]]. *)
Definition isDashOrSpace (c : ascii) : bool :=
  Ascii.eqb c "-"%char || Js.isSpace c.

(** [-], [_] or whitespace: the class [[-_\s]]. *)
Definition isWordBreak (c : ascii) : bool :=
  Ascii.eqb c "-"%char || Ascii.eqb c "_"%char || Js.isSpace c.

(** [.replace(/([A-Z])/g, '_$1')]: an underscore before every capital. *)
Fixpoint underscoreCapitals (s : string) : string :=
  match s with
  | EmptyString => EmptyString
  | String c r =>
      if Js.isUpper c then String "_"%char (String c (underscoreCapitals r))
      else String c (underscoreCapitals r)
  end.

(** [.replace(/[-\s]+/g, '_')]: every maximal run of hyphens and whitespace
    becomes one underscore. [inRun] says that the previous character
    belonged to the run being replaced. *)
Fixpoint collapseRuns (inRun : bool) (s : string) : string :=
  match s with
  | EmptyString => EmptyString
  | String c r =>
      if isDashOrSpace c then
        if inRun then collapseRuns true r
        else String "_"%char (collapseRuns true r)
      else String c (collapseRuns false r)
  end.

(** [.replace(/^_/, '')] *)
Definition dropLeadingUnderscore (s : string) : string :=
  match s with
  | String c r => if Ascii.eqb c "_"%char then r else s
  | EmptyString => EmptyString
  end.

Definition toSnakeCase (str : string) : string :=
  dropLeadingUnderscore
    (Js.toLowerCase (collapseRuns false (underscoreCapitals str))).

(** [.replace(/[-_\s]+(.)?/g, (_, c) => (c ? c.toUpperCase() : ''))]: every
    maximal run of word breaks is removed together with the character after
    it, which is put back in upper case; a run at the end of the string is
    just removed. The character after a maximal run is never a line
    terminator (those are whitespace), so [(.)?] takes it whenever there is
    one. [afterBreak] says that the previous character was a word break. *)
Fixpoint capitalizeAfterBreaks (afterBreak : bool) (s : string) : string :=
  match s with
  | EmptyString => EmptyString
  | String c r =>
      if isWordBreak c then capitalizeAfterBreaks true r
      else String (if afterBreak then Js.upperChar c else c)
                  (capitalizeAfterBreaks false r)
  end.

(** [.replace(/^(.)/, f)]: [f] on the first character, unless it is a line
    terminator. *)
Definition mapFirst (f : ascii -> ascii) (s : string) : string :=
  match s with
  | String c r => if Js.isLineTerminator c then s else String (f c) r
  | EmptyString => EmptyString
  end.

Definition toCamelCase (str : string) : string :=
  mapFirst Js.lowerChar (capitalizeAfterBreaks false str).

Definition toPascalCase (str : string) : string :=
  mapFirst Js.upperChar (capitalizeAfterBreaks false str).

(** ** SQL emitter *)

Definition nl : string := String "010"%char EmptyString.

Definition sqlTypeMap : gmap string string :=
  list_to_map
    [ ("integer", "INTEGER"); ("bigint", "BIGINT"); ("text", "TEXT");
      ("boolean", "BOOLEAN"); ("real", "REAL"); ("datetime", "TIMESTAMPTZ");
      ("uuid", "UUID"); ("jsonb", "JSONB"); ("blob", "BYTEA") ].

Definition sqlType (type : TypeValue) : TypeValue :=
  orValue (getProperty sqlTypeMap type) "TEXT".

Definition formatDefaultValue (value : string) (type : TypeValue) : string :=
  if String.eqb value "now()" || String.eqb value "now" then "now()"
  else if typeIs type "boolean" then
    if String.eqb (Js.toLowerCase value) "true" then "true" else "false"
  else if typeIs type "integer" || typeIs type "real" || typeIs type "bigint" then
    value
  else "'" +:+ value +:+ "'".

(** The body of the loop of [columnsToSQL]: the line built for one column,
    by the successive assignments to [line]. *)
Definition sqlLine (col : ColumnSpec) : string :=
  let line := "  " +:+ toSnakeCase (name col) +:+ " "
                +:+ typeText (sqlType (type col)) in
  let line :=
    if Js.truthy (isPrimaryKey col) && Js.truthy (isAutoIncrement col) then
      "  " +:+ toSnakeCase (name col) +:+ " "
        +:+ (if typeIs (type col) "uuid" then "UUID DEFAULT gen_random_uuid()"
             else "SERIAL")
        +:+ " PRIMARY KEY"
    else if Js.truthy (isPrimaryKey col) then line +:+ " PRIMARY KEY"
    else line in
  let line :=
    if negb (Js.truthy (isNullable col)) && negb (Js.truthy (isPrimaryKey col))
    then line +:+ " NOT NULL" else line in
  let line :=
    match defaultValue col with
    | Some value =>
        if negb (Js.truthy (isPrimaryKey col))
        then line +:+ " DEFAULT " +:+ formatDefaultValue value (type col)
        else line
    | None => line
    end in
  let line :=
    match foreignKeyTable col with
    | Some table =>
        if Js.truthy (isForeignKey col) && negb (Js.isEmpty table)
        then line +:+ " REFERENCES " +:+ table +:+ "("
               +:+ Js.orElse (foreignKeyColumn col) "id" +:+ ") ON DELETE CASCADE"
        else line
    | None => line
    end in
  line.

Definition columnsToSQL (tableName : string) (columns : list ColumnSpec) : string :=
  let lines := map sqlLine columns in
  "CREATE TABLE " +:+ toSnakeCase tableName +:+ " (" +:+ nl
    +:+ Js.join ("," +:+ nl) lines +:+ nl +:+ ");".

(** ** Drift emitter *)

Definition driftTypeMap : gmap string string :=
  list_to_map
    [ ("integer", "integer"); ("bigint", "int64"); ("text", "text");
      ("boolean", "boolean"); ("real", "real"); ("datetime", "dateTime");
      ("uuid", "text"); ("jsonb", "text"); ("blob", "blob") ].

Definition getDriftType (type : TypeValue) : TypeValue :=
  orValue (getProperty driftTypeMap type) "text".

Definition formatDartDefault (value : string) (type : TypeValue) : string :=
  if String.eqb value "now()" || String.eqb value "now" then "currentDateAndTime"
  else if typeIs type "boolean" then
    "const Constant("
      +:+ (if String.eqb (Js.toLowerCase value) "true" then "true" else "false")
      +:+ ")"
  else if typeIs type "integer" || typeIs type "real" || typeIs type "bigint" then
    "const Constant(" +:+ value +:+ ")"
  else "const Constant('" +:+ value +:+ "')".

Definition driftColumn (col : ColumnSpec) : string :=
  let driftType := typeText (getDriftType (type col)) in
  let line := "  " +:+ driftType +:+ "Column get " +:+ toCamelCase (name col)
                +:+ " => " +:+ driftType +:+ "()" in
  let line :=
    if Js.truthy (isPrimaryKey col) && Js.truthy (isAutoIncrement col)
    then line +:+ ".autoIncrement()" else line in
  let line :=
    if Js.truthy (isNullable col) then line +:+ ".nullable()" else line in
  let line :=
    match defaultValue col with
    | Some value =>
        line +:+ ".withDefault(" +:+ formatDartDefault value (type col) +:+ ")"
    | None => line
    end in
  line +:+ "();".

Definition columnsToDrift (tableName : string) (columns : list ColumnSpec) : string :=
  let lines := ["class " +:+ toPascalCase tableName +:+ " extends Table {"] in
  let lines := lines ++ map driftColumn columns in
  let lines := lines ++ ["}"] in
  Js.join nl lines.

(** ** The other validators of [src/utils/validation.ts] *)

(** [[a-zA-Z]] *)
Definition isLetter (c : ascii) : bool := Js.isLower c || Js.isUpper c.

(** [[a-zA-Z0-9_-]] and [[a-zA-Z0-9-]] *)
Definition isProjectNamePart (c : ascii) : bool :=
  isLetter c || Js.isDigit c || Ascii.eqb c "_"%char || Ascii.eqb c "-"%char.

Definition isWorkerNamePart (c : ascii) : bool :=
  isLetter c || Js.isDigit c || Ascii.eqb c "-"%char.

(** [PROJECT_NAME_REGEX.test(name)] with
    [PROJECT_NAME_REGEX = /^[a-zA-Z][a-zA-Z0-9_-]*$/] *)
Definition validateProjectName (name : string) : bool :=
  match name with
  | EmptyString => false
  | String c r => isLetter c && Js.allChars isProjectNamePart r
  end.

(** [WORKER_NAME_REGEX.test(name)] with
    [WORKER_NAME_REGEX = /^[a-zA-Z][a-zA-Z0-9-]*$/] *)
Definition validateWorkerName (name : string) : bool :=
  match name with
  | EmptyString => false
  | String c r => isLetter c && Js.allChars isWorkerNamePart r
  end.

(** [\d+]: one digit or more. *)
Definition isDigits (s : string) : bool :=
  negb (Js.isEmpty s) && Js.allChars Js.isDigit s.

(** [-?\d+] *)
Definition isSignedDigits (s : string) : bool :=
  match s with
  | String c r => if Ascii.eqb c "-"%char then isDigits r else isDigits s
  | EmptyString => false
  end.

(** [RESOLUTION_REGEX.test(size)] with
    [RESOLUTION_REGEX = /^(-?\d+):(-?\d+)$|^(\d+)x(\d+)$/]. Neither a number
    nor a sign holds a colon or an [x], so the first alternative matches
    exactly the strings that split at [:] into two signed numbers, and the
    second those that split at [x] into two unsigned ones. *)
Definition validateResolution (size : string) : bool :=
  match Js.split ":" size with
  | [width; height] => isSignedDigits width && isSignedDigits height
  | _ => false
  end
  || match Js.split "x" size with
     | [width; height] => isDigits width && isDigits height
     | _ => false
     end.

(** [\d{1,2}] *)
Definition isOneOrTwoDigits (s : string) : bool :=
  isDigits s && (String.length s <=? 2)%nat.

(** [\d+(\.\d+)?] *)
Definition isSeconds (s : string) : bool :=
  match Js.split "." s with
  | [whole] => isDigits whole
  | [whole; fraction] => isDigits whole && isDigits fraction
  | _ => false
  end.

(** [TIMESTAMP_REGEX.test(timestamp)] with
    [TIMESTAMP_REGEX = /^(\d{1,2}:)?(\d{1,2}:)?\d+(\.\d+)?$/]: up to two
    groups of one or two digits, each closed by a colon, then the seconds. *)
Definition validateTimestamp (timestamp : string) : bool :=
  match Js.split ":" timestamp with
  | [seconds] => isSeconds seconds
  | [a; seconds] => isOneOrTwoDigits a && isSeconds seconds
  | [a; b; seconds] => isOneOrTwoDigits a && isOneOrTwoDigits b && isSeconds seconds
  | _ => false
  end.

(** The value of a decimal digit, and [parseInt(s, 10)] on a string of
    digits. *)
Definition digitValue (c : ascii) : nat := nat_of_ascii c - 48.

Definition parseDigits (s : string) : nat :=
  fold_left (λ value c, 10 * value + digitValue c) (list_ascii_of_string s) 0.

(** [validateCRF]: [CRF_REGEX = /^\d{1,2}$/], then the value between 0 and
    51. *)
Definition validateCRF (quality : string) : bool :=
  if negb (isOneOrTwoDigits quality) then false
  else
    let value := parseDigits quality in
    (0 <=? value)%nat && (value <=? 51)%nat.

(** ** [truncate] and [maskSecret] of [src/utils/output.ts] *)

Fixpoint takeChars (n : nat) (s : string) : string :=
  match n, s with
  | S n', String c r => String c (takeChars n' r)
  | _, _ => EmptyString
  end.

(** [s.slice(0, end)] for an integer [end]: a negative [end] counts from
    the end of the string. *)
Definition slice0 (s : string) (end_ : Z) : string :=
  let len := Z.of_nat (String.length s) in
  let to := if (end_ <? 0)%Z then Z.max (len + end_) 0 else Z.min end_ len in
  takeChars (Z.to_nat to) s.

(** ['*'.repeat(n)] *)
Fixpoint repeatStar (n : nat) : string :=
  match n with
  | O => EmptyString
  | S n' => String "*"%char (repeatStar n')
  end.

(** [truncate(str, maxLength)], for an integer [maxLength]. *)
Definition truncate (str : string) (maxLength : Z) : string :=
  if (Z.of_nat (String.length str) <=? maxLength)%Z then str
  else slice0 str (maxLength - 3) +:+ "...".

(** [maskSecret(value)] *)
Definition maskSecret (value : string) : string :=
  if (String.length value <=? 4)%nat then "****"
  else slice0 value 4 +:+ repeatStar (Nat.min (String.length value - 4) 20).

(** ** Notions used in the statements *)

(** The nine normalized types. *)
Definition normalizedTypes : list string :=
  ["text"; "integer"; "bigint"; "real"; "boolean"; "datetime"; "uuid"; "jsonb"; "blob"].

(** The segments [parseColumnSpec] parses: the comma-separated parts of the
    spec, trimmed, without the empty ones. *)
Definition segmentsOf (spec : string) : list string :=
  filter (λ part : string, part ≠ "") (map Js.trim (Js.split "," spec)).

(** The modifiers of a segment: its colon-separated fields after the name
    and the type, trimmed. *)
Definition modifiersOf (segment : string) : list string :=
  drop 2 (map Js.trim (Js.split ":" segment)).

(** A descriptor marked as a foreign key names a foreign-key column. *)
Definition fkColumnDefined (column : ColumnSpec) : Prop :=
  Js.truthy (isForeignKey column) = true → is_Some (foreignKeyColumn column).

(** The column as the SQL emitter sees it once its foreign-key fields are
    removed. *)
Definition withoutForeignKey (c : ColumnSpec) : ColumnSpec :=
  mkColumnSpec (name c) (type c) (isPrimaryKey c) None None None
    (isNullable c) (defaultValue c) (isAutoIncrement c).

(** The clause the SQL emitter puts at the end of a line for a foreign key
    with a known table; empty otherwise. *)
Definition referencesClause (col : ColumnSpec) : string :=
  match foreignKeyTable col with
  | Some table =>
      if Js.truthy (isForeignKey col) && negb (Js.isEmpty table)
      then " REFERENCES " +:+ table +:+ "("
             +:+ Js.orElse (foreignKeyColumn col) "id" +:+ ") ON DELETE CASCADE"
      else ""
  | None => ""
  end.

(** A line of the [CREATE TABLE] statement built by precedence for a
    column: the three cases, each ended by the foreign-key clause. *)
Definition builtByPrecedence (col : ColumnSpec) (line : string) : Prop :=
  (Js.truthy (isPrimaryKey col) = true → Js.truthy (isAutoIncrement col) = true →
   line =
     "  " +:+ toSnakeCase (name col) +:+ " "
       +:+ (if typeIs (type col) "uuid" then "UUID DEFAULT gen_random_uuid()"
            else "SERIAL")
       +:+ " PRIMARY KEY" +:+ referencesClause col) ∧
  (Js.truthy (isPrimaryKey col) = true → Js.truthy (isAutoIncrement col) = false →
   line =
     "  " +:+ toSnakeCase (name col) +:+ " " +:+ typeText (sqlType (type col))
       +:+ " PRIMARY KEY" +:+ referencesClause col) ∧
  (Js.truthy (isPrimaryKey col) = false →
   line =
     "  " +:+ toSnakeCase (name col) +:+ " " +:+ typeText (sqlType (type col))
       +:+ (if Js.truthy (isNullable col) then "" else " NOT NULL")
       +:+ match defaultValue col with
           | Some value => " DEFAULT " +:+ formatDefaultValue value (type col)
           | None => ""
           end
       +:+ referencesClause col).

(** Every line followed by a line feed. *)
Definition unlines (lines : list string) : string :=
  foldr (fun line rest => line +:+ nl +:+ rest) "" lines.

(** A flag the parser may set: absent or [true]. *)
Definition flagUnsetOrTrue (flag : option bool) : Prop :=
  flag = None ∨ flag = Some true.

(** [normalizeType] applied to what [normalizeType] returned: on a string
    it is [normalizeType]; on an inherited member the call
    [type.toLowerCase()] fails with a [TypeError], which is [None] here. *)
Definition normalizeAgain (v : TypeValue) : option TypeValue :=
  match v with
  | TypeName s => Some (normalizeType s)
  | Inherited _ => None
  end.

(** A type as the parser stores it: a non-empty string that [normalizeType]
    leaves unchanged, or the member a lookup of [constructor] or [__proto__]
    returned. *)
Definition storedType (v : TypeValue) : Prop :=
  match v with
  | TypeName s => s ≠ "" ∧ normalizeType s = TypeName s
  | Inherited m => m = ObjectConstructor ∨ m = ProtoAccessor
  end.

(** What holds of every descriptor the parser builds. *)
Definition wellFormedColumn (c : ColumnSpec) : Prop :=
  name c ≠ "" ∧ storedType (type c)
  ∧ flagUnsetOrTrue (isPrimaryKey c) ∧ flagUnsetOrTrue (isAutoIncrement c)
  ∧ flagUnsetOrTrue (isNullable c) ∧ flagUnsetOrTrue (isForeignKey c)
  ∧ (isForeignKey c = Some true ↔ is_Some (foreignKeyTable c))
  ∧ (isForeignKey c = Some true ↔ is_Some (foreignKeyColumn c)).

(** The SQL type tokens and the Drift builder types the emitters print. *)
Definition sqlTokens : list string :=
  ["INTEGER"; "BIGINT"; "TEXT"; "BOOLEAN"; "REAL"; "TIMESTAMPTZ"; "UUID"; "JSONB"; "BYTEA"].

Definition driftTokens : list string :=
  ["integer"; "int64"; "text"; "boolean"; "real"; "dateTime"; "blob"].

(** [[a-z0-9_]]: the characters of a lower snake-case name. *)
Definition isSnakeChar (c : ascii) : bool :=
  Js.isLower c || Js.isDigit c || Ascii.eqb c "_"%char.

(** Neither a capital, nor a hyphen, nor whitespace. *)
Definition isSnakeStable (c : ascii) : bool :=
  negb (Js.isUpper c) && negb (isDashOrSpace c).

(** The decimal numeral of a number below 100, without a leading zero. *)
Definition digitChar (d : nat) : ascii := ascii_of_nat (48 + d).

Definition decimal (n : nat) : string :=
  if (n <? 10)%nat then String (digitChar n) ""
  else String (digitChar (n / 10)) (String (digitChar (n mod 10)) "").

(** The column without its auto-increment flag. *)
Definition withoutAutoIncrement (c : ColumnSpec) : ColumnSpec :=
  mkColumnSpec (name c) (type c) (isPrimaryKey c) (isForeignKey c) (foreignKeyTable c)
    (foreignKeyColumn c) (isNullable c) (defaultValue c) None.

(** * Properties *)

(** ** Strings *)

Section StringFacts.

Lemma append_empty_l (s : string) : "" +:+ s = s.
Proof. reflexivity. Qed.

Lemma append_cons (c : ascii) (a b : string) :
  String c a +:+ b = String c (a +:+ b).
Proof. reflexivity. Qed.

Lemma append_empty_r (s : string) : s +:+ "" = s.
Proof.
  induction s as [|c r IH]; [done|]. by rewrite append_cons, IH.
Qed.

Lemma append_assoc (a b c : string) : (a +:+ b) +:+ c = a +:+ b +:+ c.
Proof.
  induction a as [|x r IH]; [done|]. by rewrite !append_cons, IH.
Qed.

Lemma lowerChar_idemp (c : ascii) : Js.lowerChar (Js.lowerChar c) = Js.lowerChar c.
Proof. by destruct c as [[] [] [] [] [] [] [] []]. Qed.

Lemma toLowerCase_cons (c : ascii) (s : string) :
  Js.toLowerCase (String c s) = String (Js.lowerChar c) (Js.toLowerCase s).
Proof. reflexivity. Qed.

Lemma toLowerCase_idemp (s : string) :
  Js.toLowerCase (Js.toLowerCase s) = Js.toLowerCase s.
Proof.
  induction s as [|c r IH]; [done|].
  by rewrite !toLowerCase_cons, lowerChar_idemp, IH.
Qed.

Lemma toLowerCase_append (a b : string) :
  Js.toLowerCase (a +:+ b) = Js.toLowerCase a +:+ Js.toLowerCase b.
Proof.
  induction a as [|c r IH]; [done|].
  by rewrite append_cons, !toLowerCase_cons, append_cons, IH.
Qed.

Lemma isEmpty_true (s : string) : Js.isEmpty s = true ↔ s = "".
Proof. by destruct s. Qed.

Lemma isEmpty_false (s : string) : Js.isEmpty s = false ↔ s ≠ "".
Proof. by destruct s. Qed.

Lemma typeIs_true (v : TypeValue) (s : string) : typeIs v s = true ↔ v = TypeName s.
Proof.
  destruct v as [t|m]; simpl; [|done].
  rewrite String.eqb_eq. split; [by intros ->|by intros [= ->]].
Qed.

Lemma typeIs_false (v : TypeValue) (s : string) : typeIs v s = false ↔ v ≠ TypeName s.
Proof.
  rewrite <- typeIs_true. by destruct (typeIs v s).
Qed.

End StringFacts.

(** ** Type normalization *)

(** Every value of the alias table is one of the nine normalized types. *)
Lemma normalizeTypeMap_values (k v : string) :
  normalizeTypeMap !! k = Some v → v ∈ normalizedTypes.
Proof.
  intros H. apply elem_of_list_to_map_2 in H.
  unfold normalizedTypes.
  repeat (apply elem_of_cons in H as [H|H]; [injection H as _ <-; set_solver|]).
  by apply elem_of_nil in H.
Qed.

(** A normalized type is normalized to itself. *)
Lemma normalizeType_normalized (v : string) :
  v ∈ normalizedTypes → normalizeType v = v.
Proof.
  unfold normalizedTypes. intros H.
  repeat (apply elem_of_cons in H as [->|H]; [by vm_compute|]).
  by apply elem_of_nil in H.
Qed.

Lemma normalizedTypes_nonempty (v : string) :
  v ∈ normalizedTypes → Js.isEmpty v = false.
Proof.
  unfold normalizedTypes. intros H.
  repeat (apply elem_of_cons in H as [->|H]; [done|]).
  by apply elem_of_nil in H.
Qed.

(** Where a second normalization changes nothing: whenever [normalizeType]
    returns a string, it returns that string for it again. *)
Lemma normalizeType_fixed (t s : string) :
  normalizeType t = TypeName s → normalizeType s = TypeName s.
Proof.
  unfold normalizeType at 1. unfold getProperty. cbn [typeText].
  destruct (normalizeTypeMap !! Js.toLowerCase t) as [v|] eqn:Hk; cbn [orValue].
  - pose proof (normalizeTypeMap_values _ _ Hk) as Hv.
    rewrite (normalizedTypes_nonempty _ Hv). intros [= <-].
    by apply normalizeType_normalized.
  - destruct (inheritedMember (Js.toLowerCase t)) as [m|] eqn:Hm;
      cbn [fmap option_fmap option_map orValue]; [done|].
    intros [= <-]. unfold normalizeType, getProperty. cbn [typeText].
    by rewrite toLowerCase_idemp, Hk, Hm.
Qed.

(** For every type name that is not, in lower case, the name of a member of
    [Object.prototype], normalizing a second time gives the first result. *)
Lemma normalizeAgain_own (t : string) :
  inheritedMember (Js.toLowerCase t) = None →
  normalizeAgain (normalizeType t) = Some (normalizeType t).
Proof.
  intros Hm. destruct (normalizeType t) as [s|m] eqn:Ht; simpl.
  - by rewrite (normalizeType_fixed t s Ht).
  - exfalso. revert Ht. unfold normalizeType, getProperty. cbn [typeText].
    rewrite Hm.
    destruct (normalizeTypeMap !! Js.toLowerCase t) as [v|];
      cbn [fmap option_fmap option_map orValue]; [|done].
    by destruct (Js.isEmpty v).
Qed.

(** C9. Type normalization is not idempotent on the type names
    [constructor] and [__PROTO__]: the lookup [typeMap[...]] finds the member
    the object literal inherits under the lower-cased name, so the result is
    the function [Object], or the prototype object, and not the lower-cased
    name. Normalizing that result again fails ([type.toLowerCase] is not a
    function). The parser stores the function as the type of the column
    [a:constructor]. *)
Theorem normalizeType_inherited_name :
  normalizeType "constructor" = Inherited ObjectConstructor
  ∧ normalizeAgain (normalizeType "constructor") = None
  ∧ normalizeType "__PROTO__" = Inherited ProtoAccessor
  ∧ normalizeAgain (normalizeType "__PROTO__") = None
  ∧ parseColumnSpec "a:constructor" = Ok [newColumn "a" (Inherited ObjectConstructor)].
Proof. by vm_compute. Qed.

(** ** SQL emitter *)

Ltac normalize_append :=
  repeat rewrite append_assoc;
  repeat rewrite append_empty_r;
  repeat rewrite append_empty_l.

Lemma sqlLine_split (col : ColumnSpec) :
  sqlLine col = sqlLine (withoutForeignKey col) +:+ referencesClause col.
Proof.
  unfold sqlLine, referencesClause, withoutForeignKey; simpl.
  destruct (foreignKeyTable col) as [table|]; [|by rewrite append_empty_r].
  destruct (Js.truthy (isForeignKey col) && negb (Js.isEmpty table));
    [done | by rewrite append_empty_r].
Qed.

(** The line of one column in the three cases, as the loop body builds
    it. *)
Lemma sqlLine_cases (col : ColumnSpec) : builtByPrecedence col (sqlLine col).
Proof.
  unfold builtByPrecedence. rewrite sqlLine_split.
  unfold sqlLine, withoutForeignKey; simpl.
  split; [|split].
  - intros -> ->. simpl. rewrite andb_false_r.
    destruct (defaultValue col); by normalize_append.
  - intros -> ->. simpl. rewrite andb_false_r.
    destruct (defaultValue col); by normalize_append.
  - intros ->. simpl.
    destruct (Js.truthy (isNullable col)), (defaultValue col); simpl;
      by normalize_append.
Qed.

(** C5. The statement [columnsToSQL] returns: [CREATE TABLE], the
    snake-cased table name, and between the parentheses one line per column,
    in order, joined by a comma and a line feed. Each line is built by
    precedence. A primary key that auto-increments: the snake-cased name,
    then [UUID DEFAULT gen_random_uuid()] for type [uuid] and [SERIAL] for
    any other type, then [PRIMARY KEY]; the declared type is not printed. Any
    other primary key: name, SQL type, [PRIMARY KEY]. Any other column: name,
    SQL type, [NOT NULL] exactly when the column is not nullable, and a
    [DEFAULT] clause exactly when a default value is present. A primary key
    never gets [NOT NULL] or [DEFAULT]. The foreign-key clause, if any,
    ends the line in every case. *)
Theorem columnsToSQL_precedence (tableName : string) (columns : list ColumnSpec) :
  ∃ lines,
    columnsToSQL tableName columns
    = "CREATE TABLE " +:+ toSnakeCase tableName +:+ " (" +:+ nl
        +:+ Js.join ("," +:+ nl) lines +:+ nl +:+ ");"
    ∧ Forall2 builtByPrecedence columns lines.
Proof.
  exists (map sqlLine columns). split; [reflexivity|].
  induction columns as [|col columns IH]; simpl; constructor; [|done].
  apply sqlLine_cases.
Qed.

Lemma columnsToSQL_precedence_witness :
  ∃ lines,
    columnsToSQL "userPosts"
      [setAutoIncrement (setPrimaryKey (newColumn "id" "uuid") true) true;
       setDefaultValue (newColumn "isActive" "boolean") "TRUE"]
    = "CREATE TABLE " +:+ toSnakeCase "userPosts" +:+ " (" +:+ nl
        +:+ Js.join ("," +:+ nl) lines +:+ nl +:+ ");"
    ∧ Forall2 builtByPrecedence
        [setAutoIncrement (setPrimaryKey (newColumn "id" "uuid") true) true;
         setDefaultValue (newColumn "isActive" "boolean") "TRUE"]
        lines.
Proof.
  exact (columnsToSQL_precedence "userPosts"
           [setAutoIncrement (setPrimaryKey (newColumn "id" "uuid") true) true;
            setDefaultValue (newColumn "isActive" "boolean") "TRUE"]).
Defined.

Example userPosts_statement :
  columnsToSQL "userPosts"
    [setAutoIncrement (setPrimaryKey (newColumn "id" "uuid") true) true;
     setPrimaryKey (newColumn "code" "integer") true;
     setDefaultValue (newColumn "isActive" "boolean") "TRUE"]
  = "CREATE TABLE user_posts (" +:+ nl
      +:+ "  id UUID DEFAULT gen_random_uuid() PRIMARY KEY," +:+ nl
      +:+ "  code INTEGER PRIMARY KEY," +:+ nl
      +:+ "  is_active BOOLEAN NOT NULL DEFAULT true" +:+ nl +:+ ");".
Proof. by vm_compute. Qed.

(** C6. How the SQL emitter formats a default value. The tokens [now()]
    and [now] give [now()], unquoted, whatever the type. For any other value:
    a [boolean] column gives [true] when the value is [true] in any letter
    case and [false] otherwise; [integer], [real] and [bigint] columns give
    the value as it is; every other type gives the value between single
    quotes, unchanged, so a single quote inside the value stands in the
    output with nothing put before it. *)
Theorem formatDefaultValue_cases (value : string) (type : TypeValue) :
  (value = "now()" ∨ value = "now" → formatDefaultValue value type = "now()") ∧
  (value ≠ "now()" → value ≠ "now" →
     (type = "boolean" → Js.toLowerCase value = "true" →
        formatDefaultValue value type = "true") ∧
     (type = "boolean" → Js.toLowerCase value ≠ "true" →
        formatDefaultValue value type = "false") ∧
     (type = "integer" ∨ type = "real" ∨ type = "bigint" →
        formatDefaultValue value type = value) ∧
     (type ≠ "boolean" → type ≠ "integer" → type ≠ "real" → type ≠ "bigint" →
        formatDefaultValue value type = "'" +:+ value +:+ "'" ∧
        ∀ before after, value = before +:+ "'" +:+ after →
          formatDefaultValue value type = "'" +:+ before +:+ "'" +:+ after +:+ "'")).
Proof.
  unfold formatDefaultValue. split.
  - intros [-> | ->]; reflexivity.
  - intros Hnow1 Hnow2.
    apply String.eqb_neq in Hnow1, Hnow2. rewrite Hnow1, Hnow2. simpl.
    split; [|split; [|split]].
    + intros -> Htrue. apply String.eqb_eq in Htrue. by rewrite Htrue.
    + intros -> Hfalse. apply String.eqb_neq in Hfalse. by rewrite Hfalse.
    + intros [-> | [-> | ->]]; reflexivity.
    + intros Hb Hi Hr Hg.
      apply typeIs_false in Hb, Hi, Hr, Hg. rewrite Hb, Hi, Hr, Hg. simpl.
      split; [done|]. intros before after ->. by rewrite append_assoc.
Qed.

Lemma formatDefaultValue_cases_witness :
  formatDefaultValue "now" "datetime" = "now()"
  ∧ formatDefaultValue "TRUE" "boolean" = "true"
  ∧ formatDefaultValue "yes" "boolean" = "false"
  ∧ formatDefaultValue "42" "integer" = "42"
  ∧ formatDefaultValue "O'Brien" "text" = "'O'Brien'".
Proof.
  assert (Hne : ∀ a b : string, String.eqb a b = false → a ≠ b)
    by (intros a b; apply String.eqb_neq).
  split; [|split; [|split; [|split]]].
  - apply (formatDefaultValue_cases "now" "datetime"). by right.
  - apply (formatDefaultValue_cases "TRUE" "boolean"); by try apply Hne.
  - apply (formatDefaultValue_cases "yes" "boolean"); by try apply Hne.
  - apply (formatDefaultValue_cases "42" "integer"); try by apply Hne. by left.
  - apply (formatDefaultValue_cases "O'Brien" "text");
      first [by apply Hne | by apply typeIs_false].
Defined.

(** C10. The foreign-key clause of the SQL emitter. A column marked as a
    foreign key whose table is absent (or empty) gets the same line as the
    column without its foreign-key fields: no [REFERENCES] clause. When the
    column is a foreign key with a table, the line is that same line
    followed by [ REFERENCES <table>(<column>) ON DELETE CASCADE], where
    [<column>] is the column's [foreignKeyColumn], or [id] when that is
    absent or empty; [<column>] is never empty. Nothing else gets the
    clause. *)
Theorem sqlLine_references (col : ColumnSpec) :
  (Js.truthy (isForeignKey col) = true →
   foreignKeyTable col = None ∨ foreignKeyTable col = Some "" →
   sqlLine col = sqlLine (withoutForeignKey col)) ∧
  (∀ table, Js.truthy (isForeignKey col) = true →
     foreignKeyTable col = Some table → table ≠ "" →
     ∃ column, column ≠ "" ∧
       (foreignKeyColumn col = Some column ∨
        column = "id" ∧ (foreignKeyColumn col = None ∨ foreignKeyColumn col = Some "")) ∧
       sqlLine col =
         sqlLine (withoutForeignKey col) +:+ " REFERENCES " +:+ table +:+ "("
           +:+ column +:+ ") ON DELETE CASCADE") ∧
  (Js.truthy (isForeignKey col) = false →
   sqlLine col = sqlLine (withoutForeignKey col)).
Proof.
  rewrite sqlLine_split. unfold referencesClause. split; [|split].
  - intros _ [-> | ->]; simpl; rewrite ?andb_false_r; by rewrite append_empty_r.
  - intros table -> -> Hne. apply isEmpty_false in Hne. rewrite Hne. simpl.
    destruct (foreignKeyColumn col) as [[|c r]|] eqn:Hcol; simpl.
    + exists "id". split; [done|]. split; [right; auto | done].
    + exists (String c r). split; [done|]. split; [by left | done].
    + exists "id". split; [done|]. split; [right; auto | done].
  - intros ->. destruct (foreignKeyTable col); by rewrite append_empty_r.
Qed.

Lemma sqlLine_references_witness :
  sqlLine (setForeignKey (newColumn "userId" "uuid") true) = "  user_id UUID NOT NULL"
  ∧ ∃ column, column ≠ "" ∧
      sqlLine (setForeignKeyTable (setForeignKey (newColumn "userId" "uuid") true) "users")
      = "  user_id UUID NOT NULL" +:+ " REFERENCES " +:+ "users" +:+ "("
          +:+ column +:+ ") ON DELETE CASCADE".
Proof.
  split.
  - exact (proj1 (sqlLine_references (setForeignKey (newColumn "userId" "uuid") true))
             eq_refl (or_introl eq_refl)).
  - destruct (proj1 (proj2 (sqlLine_references
        (setForeignKeyTable (setForeignKey (newColumn "userId" "uuid") true) "users")))
        "users" eq_refl eq_refl ltac:(discriminate)) as (column & Hne & _ & Hline).
    exists column. split; [exact Hne | exact Hline].
Defined.

(** ** Identifier validation *)

(** X17. A name with a character outside [[a-zA-Z0-9_]] is not an
    identifier: in particular any name with a semicolon, a quote, a hyphen,
    a dot or a space. *)
Lemma validateIdentifier_rejects (name : string) (c : ascii) :
  c ∈ list_ascii_of_string name → isIdentPart c = false →
  validateIdentifier name = false.
Proof.
  intros Hin Hc.
  assert (Hall : Js.allChars isIdentPart name = false).
  { induction name as [|d r IH]; simpl in *; [by apply elem_of_nil in Hin|].
    apply elem_of_cons in Hin as [<- | Hin]; [by rewrite Hc|].
    rewrite IH by done. apply andb_false_r. }
  destruct name as [|d r]; [done|]. simpl in *.
  destruct (isIdentStart d) eqn:Hd; [|done].
  unfold isIdentPart in Hall. by rewrite Hd in Hall.
Qed.

Example isIdentPart_metacharacters :
  forallb (λ c, negb (isIdentPart c))
    [";"; "'"; "034"; "-"; "."; " "; "("; ")"; "="; "*"]%char = true.
Proof. reflexivity. Qed.

(** The table name of the injection scenario does not satisfy the
    identifier grammar. *)
Example validateIdentifier_rejects_injection :
  validateIdentifier "users; DROP TABLE users;--" = false
  ∧ validateIdentifier "table-name" = false
  ∧ validateIdentifier "user_posts_v2" = true.
Proof. by vm_compute. Qed.

(** C1. What [columnsToSQL] does with a table name that is not an
    identifier: it calls no validation and throws nothing. For the table
    name [users; DROP TABLE users;--] and the column [id:int:pk] it returns a
    [CREATE TABLE] statement whose table name is the snake-cased input; the
    same happens for a column whose name is not an identifier. *)
Theorem columnsToSQL_invalid_identifier_not_rejected :
  validateIdentifier "users; DROP TABLE users;--" = false
  ∧ columnsToSQL "users; DROP TABLE users;--"
      [setPrimaryKey (newColumn "id" "integer") true]
    = "CREATE TABLE users;__d_r_o_p__t_a_b_l_e_users;_ (" +:+ nl
        +:+ "  id INTEGER PRIMARY KEY" +:+ nl +:+ ");"
  ∧ validateIdentifier "id;DROP" = false
  ∧ columnsToSQL "users" [newColumn "id;DROP" "integer"]
    = "CREATE TABLE users (" +:+ nl
        +:+ "  id;_d_r_o_p INTEGER NOT NULL" +:+ nl +:+ ");".
Proof. by vm_compute. Qed.

(** ** Drift emitter *)

Lemma join_cons (sep x y : string) (rest : list string) :
  Js.join sep (x :: y :: rest) = x +:+ sep +:+ Js.join sep (y :: rest).
Proof. reflexivity. Qed.

Lemma join_snoc_unlines (lines : list string) (final : string) :
  Js.join nl (lines ++ [final]) = unlines lines +:+ final.
Proof.
  induction lines as [|line rest IH]; [done|].
  change ((line :: rest) ++ [final]) with (line :: (rest ++ [final])).
  destruct (rest ++ [final]) as [|y ys] eqn:Hrest.
  - by destruct rest.
  - rewrite join_cons, IH. simpl. by rewrite !append_assoc.
Qed.

(** C4. [columnsToDrift] does not validate the table name. For every
    table name, an identifier or not, and every list of columns, it returns
    the class definition: the header with the PascalCase form of the name,
    one line per column, and the closing brace. The name goes through
    [toPascalCase] and nothing else; no error can be raised. *)
Theorem columnsToDrift_table_name_unchecked
  (tableName : string) (columns : list ColumnSpec) :
  columnsToDrift tableName columns =
    "class " +:+ toPascalCase tableName +:+ " extends Table {" +:+ nl
      +:+ unlines (map driftColumn columns) +:+ "}".
Proof.
  unfold columnsToDrift.
  change ((["class " +:+ toPascalCase tableName +:+ " extends Table {"]
            ++ map driftColumn columns) ++ ["}"])
    with (("class " +:+ toPascalCase tableName +:+ " extends Table {")
            :: map driftColumn columns ++ ["}"]).
  destruct (map driftColumn columns ++ ["}"]) as [|y ys] eqn:Hlines.
  - by destruct (map driftColumn columns).
  - rewrite join_cons, <- Hlines, join_snoc_unlines. by rewrite !append_assoc.
Qed.

Example columnsToDrift_injection_name :
  validateIdentifier "users; DROP TABLE users;--" = false
  ∧ columnsToDrift "users; DROP TABLE users;--"
      [setPrimaryKey (newColumn "id" "integer") true]
    = "class Users;DROPTABLEUsers; extends Table {" +:+ nl
        +:+ "  integerColumn get id => integer()();" +:+ nl +:+ "}".
Proof. by vm_compute. Qed.

(** C3. What [formatDartDefault] does with a single quote in a default
    value: it copies the value between the quotes of [Constant('...')]
    unchanged. For the spec [name:text:default(O'Brien)] the Drift emitter
    writes [const Constant('O'Brien')], without the backslash. *)
Theorem formatDartDefault_quote_not_escaped :
  formatDartDefault "O'Brien" "text" = "const Constant('O'Brien')"
  ∧ formatDartDefault "O'Brien" "text" ≠ "const Constant('O\'Brien')"
  ∧ (columns ← parseColumnSpec "name:text:default(O'Brien)";
     mret (columnsToDrift "Users" columns))
    = Ok ("class Users extends Table {" +:+ nl
            +:+ "  textColumn get name => text().withDefault(const Constant('O'Brien'))();"
            +:+ nl +:+ "}").
Proof. split; [by vm_compute | split; [by vm_compute | by vm_compute]]. Qed.

(** ** Parser *)

Section ParseParts.

Lemma bind_Ok {A B} (r : result A) (k : A → result B) (b : B) :
  r ≫= k = Ok b ↔ ∃ a, r = Ok a ∧ k a = Ok b.
Proof.
  destruct r as [a|e]; simpl; split.
  - intros H. by exists a.
  - by intros (a' & [= <-] & H).
  - done.
  - by intros (a' & [=] & _).
Qed.

Lemma parseParts_Ok (parts : list string) :
  ∀ columns result : list ColumnSpec,
    parseParts columns parts = Ok result ↔
    ∃ new, result = columns ++ new
           ∧ Forall2 (λ segment column, parseColumn segment = Ok column)
               (filter (λ part : string, part ≠ "") parts) new.
Proof.
  induction parts as [|part rest IH]; intros columns result; simpl.
  - split.
    + intros [= <-]. exists []. by rewrite app_nil_r.
    + intros (new & -> & Hnew). apply Forall2_nil_inv_l in Hnew as ->.
      by rewrite app_nil_r.
  - destruct (Js.isEmpty part) eqn:Hempty.
    + apply isEmpty_true in Hempty as ->.
      rewrite filter_cons_False by (intros Hne; by apply Hne). apply IH.
    + apply isEmpty_false in Hempty.
      rewrite filter_cons_True by done.
      rewrite bind_Ok. split.
      * intros (column & Hcolumn & Hrest).
        apply IH in Hrest as (new & -> & Hnew).
        exists (column :: new). split; [by rewrite <- app_assoc|].
        by constructor.
      * intros (new & -> & Hnew).
        apply Forall2_cons_inv_l in Hnew as (column & new' & Hcolumn & Hnew' & ->).
        exists column. split; [done|].
        apply IH. exists new'. split; [by rewrite <- app_assoc | done].
Qed.

End ParseParts.

(** C8. The descriptors [parseColumnSpec] returns. The call succeeds with
    [columns] exactly when [columns] lists, in order, the descriptor of each
    non-empty segment: parts that are empty after trimming play no role,
    they are neither parsed nor an error. So the number of descriptors is
    the number of non-empty segments. *)
Theorem parseColumnSpec_one_per_segment (spec : string) (columns : list ColumnSpec) :
  (parseColumnSpec spec = Ok columns ↔
   Forall2 (λ segment column, parseColumn segment = Ok column) (segmentsOf spec) columns)
  ∧ (parseColumnSpec spec = Ok columns → length columns = length (segmentsOf spec)).
Proof.
  assert (Hiff : parseColumnSpec spec = Ok columns ↔
    Forall2 (λ segment column, parseColumn segment = Ok column) (segmentsOf spec) columns).
  { unfold parseColumnSpec, segmentsOf. rewrite parseParts_Ok. split.
    - by intros (new & -> & Hnew).
    - intros Hnew. by exists columns. }
  split; [exact Hiff|].
  intros Hok. apply Hiff in Hok. symmetry. by eapply Forall2_length.
Qed.

Lemma parseColumnSpec_one_per_segment_witness :
  segmentsOf "id:int:pk, ,,name:text , " = ["id:int:pk"; "name:text"]
  ∧ ∃ columns, parseColumnSpec "id:int:pk, ,,name:text , " = Ok columns
               ∧ length columns = 2.
Proof.
  split; [reflexivity|].
  eexists. split; [reflexivity|].
  exact (proj2 (parseColumnSpec_one_per_segment "id:int:pk, ,,name:text , " _) eq_refl).
Defined.

(** C2. What [parseColumnSpec] does with an [fk(...)] reference whose
    components are not identifiers: it checks nothing and throws nothing.
    The reference is split at the dots and stored as it is. *)
Theorem parseColumnSpec_fk_component_not_rejected :
  validateIdentifier "auth;DROP TABLE users" = false
  ∧ parseColumnSpec "userId:uuid:fk(auth;DROP TABLE users.id)"
    = Ok [setForeignKeyColumn
            (setForeignKeyTable (setForeignKey (newColumn "userId" "uuid") true)
               "auth;DROP TABLE users")
            (Some "id")]
  ∧ validateIdentifier "id'" = false
  ∧ parseColumnSpec "userId:uuid:fk(auth.users.id')"
    = Ok [setForeignKeyColumn
            (setForeignKeyTable (setForeignKey (newColumn "userId" "uuid") true)
               "auth.users")
            (Some "id'")]
  ∧ validateIdentifier "auth'---" = false
  ∧ parseColumnSpec "userId:uuid:fk(auth'---.id)"
    = Ok [setForeignKeyColumn
            (setForeignKeyTable (setForeignKey (newColumn "userId" "uuid") true)
               "auth'---")
            (Some "id")].
Proof. by vm_compute. Qed.

(** *** The [fk(...)] modifier *)

Section ForeignKey.

Lemma stripLast_snoc (c : ascii) (s : string) :
  Js.stripLast c (s +:+ String c "") = Some s.
Proof.
  induction s as [|d r IH].
  - simpl. by rewrite Ascii.eqb_refl.
  - rewrite append_cons.
    change (Js.stripLast c (String d (r +:+ String c "")))
      with (match r +:+ String c "" with
            | EmptyString => if Ascii.eqb d c then Some EmptyString else None
            | String _ _ => String d <$> Js.stripLast c (r +:+ String c "")
            end).
    rewrite IH. destruct r; reflexivity.
Qed.

Lemma split_nonempty (sep : ascii) (s : string) : Js.split sep s ≠ [].
Proof.
  induction s as [|c r IH]; simpl; [done|].
  destruct (Ascii.eqb c sep); [done|]. by destruct (Js.split sep r).
Qed.

Lemma split_singleton (sep : ascii) (s part : string) :
  Js.split sep s = [part] → part = s.
Proof.
  revert part. induction s as [|c r IH]; intros part; simpl.
  - by intros [= <-].
  - destruct (Ascii.eqb c sep).
    + intros [= _ Hrest]. by apply split_nonempty in Hrest.
    + destruct (Js.split sep r) as [|h t] eqn:Hr; [by apply split_nonempty in Hr|].
      intros [= <- ->]. by rewrite (IH h).
Qed.

(** The words [fk] in any letter case. *)
Lemma toLowerCase_fk (kw : string) :
  Js.toLowerCase kw = "fk" →
  ∃ f k, kw = String f (String k "")
         ∧ Js.lowerChar f = "f"%char ∧ Js.lowerChar k = "k"%char.
Proof.
  destruct kw as [|f [|k [|x r]]]; try done.
  rewrite !toLowerCase_cons. intros [= Hf Hk]. by exists f, k.
Qed.

(** A modifier written [fk(<ref>)], with [fk] in any letter case and a
    non-empty [<ref>] without [)], is matched by the regular expression,
    and [<ref>] is the captured group. *)
Lemma fkMatch_intro (kw ref : string) :
  Js.toLowerCase kw = "fk" → ref ≠ "" →
  Js.allChars (λ c, negb (Ascii.eqb c ")")) ref = true →
  fkMatch (kw +:+ "(" +:+ ref +:+ ")") = Some ref.
Proof.
  intros (f & k & -> & Hf & Hk)%toLowerCase_fk Hne Hall.
  unfold fkMatch. rewrite !append_cons, append_empty_l. simpl.
  rewrite Hf, Hk. simpl.
  rewrite append_empty_l, stripLast_snoc. simpl.
  apply isEmpty_false in Hne. by rewrite Hne, Hall.
Qed.

(** Such a modifier is none of the keyword modifiers. *)
Lemma fk_not_keyword (kw rest : string) (keyword : string) :
  Js.toLowerCase kw = "fk" →
  keyword ∈ ["pk"; "primarykey"; "primary_key"; "autoincrement"; "auto_increment";
             "serial"; "nullable"; "null"] →
  String.eqb (Js.toLowerCase (kw +:+ "(" +:+ rest)) keyword = false.
Proof.
  intros Hkw Hin. rewrite toLowerCase_append, Hkw.
  repeat (apply elem_of_cons in Hin as [->|Hin]; [done|]).
  by apply elem_of_nil in Hin.
Qed.

Lemma parseModifier_fk (column : ColumnSpec) (kw ref : string) :
  Js.toLowerCase kw = "fk" → ref ≠ "" →
  Js.allChars (λ c, negb (Ascii.eqb c ")")) ref = true →
  parseModifier column (kw +:+ "(" +:+ ref +:+ ")") =
    let column := setForeignKey column true in
    let parts := Js.split "." ref in
    if (2 <=? length parts)%nat then
      Ok (setForeignKeyColumn
            (setForeignKeyTable column (Js.join "." (Js.sliceInit parts)))
            (Js.lastElement parts))
    else Ok (setForeignKeyColumn (setForeignKeyTable column ref) (Some "id")).
Proof.
  intros Hkw Hne Hall. unfold parseModifier.
  rewrite !(fk_not_keyword kw _ _ Hkw) by set_solver.
  by rewrite (fkMatch_intro _ _ Hkw Hne Hall).
Qed.

End ForeignKey.

Section ForeignKeyInvariant.

Lemma newColumn_fkColumnDefined (name : string) (type : TypeValue) :
  fkColumnDefined (newColumn name type).
Proof. by intros ?. Qed.

Lemma parseModifier_fkColumnDefined (column column' : ColumnSpec) (modifier : string) :
  fkColumnDefined column →
  parseModifier column modifier = Ok column' →
  fkColumnDefined column'.
Proof.
  unfold parseModifier, fkColumnDefined. intros Hinv.
  repeat (match goal with
          | |- context [if ?b then _ else _] => destruct b eqn:?
          | |- context [match ?o with Some _ => _ | None => _ end] => destruct o eqn:?
          end);
    intros [= <-]; simpl; try done.
  intros _. apply last_is_Some. intros Hnil.
  match goal with H : (2 <=? length _)%nat = true |- _ => by rewrite Hnil in H end.
Qed.

Lemma parseModifiers_fkColumnDefined (modifiers : list string) :
  ∀ column column' : ColumnSpec,
    fkColumnDefined column →
    parseModifiers column modifiers = Ok column' →
    fkColumnDefined column'.
Proof.
  induction modifiers as [|modifier rest IH]; intros column column' Hinv; simpl.
  - by intros [= <-].
  - intros (next & Hnext & Hrest)%bind_Ok.
    eauto using parseModifier_fkColumnDefined.
Qed.

Lemma parseColumn_fkColumnDefined (definition : string) (column : ColumnSpec) :
  parseColumn definition = Ok column → fkColumnDefined column.
Proof.
  unfold parseColumn.
  destruct (map Js.trim (Js.split ":" definition)) as [|name [|type modifiers]];
    try done.
  destruct (Js.isEmpty name || Js.isEmpty type); [done|].
  intros Hok. eapply parseModifiers_fkColumnDefined; [|exact Hok].
  apply newColumn_fkColumnDefined.
Qed.

End ForeignKeyInvariant.

(** C7. The reference of an [fk(<ref>)] modifier the parser accepts
    ([fk] in any letter case, [<ref>] non-empty and without [)]). When
    [<ref>] has two dot-separated parts or more, the last part becomes
    [foreignKeyColumn] and the parts before it, joined with dots, become
    [foreignKeyTable]. When it has one part, that part becomes
    [foreignKeyTable] and [foreignKeyColumn] is [id]. In both cases
    [isForeignKey] is set and nothing else changes. Hence every descriptor
    [parseColumnSpec] returns with [isForeignKey] set has a
    [foreignKeyColumn]. *)
Theorem fk_reference_fields :
  (∀ (column : ColumnSpec) (kw ref : string),
     Js.toLowerCase kw = "fk" → ref ≠ "" →
     Js.allChars (λ c, negb (Ascii.eqb c ")")) ref = true →
     (∀ init lastPart, Js.split "." ref = init ++ [lastPart] → init ≠ [] →
        parseModifier column (kw +:+ "(" +:+ ref +:+ ")") =
          Ok (setForeignKeyColumn
                (setForeignKeyTable (setForeignKey column true) (Js.join "." init))
                (Some lastPart)))
     ∧ (∀ part, Js.split "." ref = [part] →
        parseModifier column (kw +:+ "(" +:+ ref +:+ ")") =
          Ok (setForeignKeyColumn
                (setForeignKeyTable (setForeignKey column true) part)
                (Some "id"))))
  ∧ (∀ (spec : string) (columns : list ColumnSpec) (column : ColumnSpec),
       parseColumnSpec spec = Ok columns → column ∈ columns →
       Js.truthy (isForeignKey column) = true →
       ∃ c, foreignKeyColumn column = Some c).
Proof.
  split.
  - intros column kw ref Hkw Hne Hall.
    rewrite (parseModifier_fk column kw ref Hkw Hne Hall). split.
    + intros init lastPart -> Hinit. cbv zeta.
      assert (Hlen : (2 <=? length (init ++ [lastPart]))%nat = true).
      { apply Nat.leb_le. rewrite length_app. destruct init; [done | simpl; lia]. }
      rewrite Hlen. unfold Js.sliceInit, Js.lastElement.
      by rewrite removelast_last, last_snoc.
    + intros part Hpart. cbv zeta. rewrite Hpart. simpl.
      by rewrite (split_singleton _ _ _ Hpart).
  - intros spec columns column Hok Hin Hfk.
    unfold parseColumnSpec in Hok.
    apply parseParts_Ok in Hok as (new & -> & Hnew).
    rewrite app_nil_l in Hin.
    apply list_elem_of_lookup in Hin as [i Hi].
    destruct (Forall2_lookup_r _ _ _ _ _ Hnew Hi) as (segment & _ & Hsegment).
    by apply (parseColumn_fkColumnDefined segment column).
Qed.

Lemma fk_reference_fields_witness :
  parseModifier (newColumn "userId" "uuid") "FK(auth.users.id)"
    = Ok (setForeignKeyColumn
            (setForeignKeyTable (setForeignKey (newColumn "userId" "uuid") true) "auth.users")
            (Some "id"))
  ∧ parseModifier (newColumn "userId" "uuid") "fk(users)"
    = Ok (setForeignKeyColumn
            (setForeignKeyTable (setForeignKey (newColumn "userId" "uuid") true) "users")
            (Some "id"))
  ∧ ∃ c, foreignKeyColumn
           (setForeignKeyColumn
              (setForeignKeyTable (setForeignKey (newColumn "userId" "uuid") true) "auth")
              (Some "users")) = Some c.
Proof.
  split; [|split].
  - exact (proj1 (proj1 fk_reference_fields (newColumn "userId" "uuid") "FK" "auth.users.id"
                    eq_refl ltac:(discriminate) eq_refl)
             ["auth"; "users"] "id" eq_refl ltac:(discriminate)).
  - exact (proj2 (proj1 fk_reference_fields (newColumn "userId" "uuid") "fk" "users"
                    eq_refl ltac:(discriminate) eq_refl)
             "users" eq_refl).
  - apply (proj2 fk_reference_fields "userId:uuid:fk(auth.users)" _ _ eq_refl);
      [left | reflexivity].
Defined.

(** * Further properties *)

(** ** Splitting and joining *)

Section SplitJoin.

Variable sep : ascii.

Lemma join_split (s : string) :
  Js.join (String sep "") (Js.split sep s) = s.
Proof.
  induction s as [|c r IH]; [reflexivity|]. simpl.
  pose proof (split_nonempty sep r) as Hne.
  destruct (Js.split sep r) as [|h t] eqn:Hr; [done|].
  destruct (Ascii.eqb_spec c sep) as [->|Hc].
  - rewrite join_cons, IH. reflexivity.
  - destruct t as [|y ys].
    + simpl in *. by rewrite IH.
    + rewrite join_cons in *. by rewrite append_cons, IH.
Qed.

Lemma split_parts_no_sep (s : string) :
  Forall (λ part, Js.allChars (λ c, negb (Ascii.eqb c sep)) part = true)
    (Js.split sep s).
Proof.
  induction s as [|c r IH]; simpl; [by repeat constructor|].
  destruct (Ascii.eqb c sep) eqn:Hc; [by constructor|].
  destruct (Js.split sep r) as [|h t]; simpl.
  - repeat constructor. simpl. by rewrite Hc.
  - apply Forall_cons in IH as [Hh Ht]. constructor; [|done].
    simpl. by rewrite Hc, Hh.
Qed.

Lemma split_no_sep (s : string) :
  Js.allChars (λ c, negb (Ascii.eqb c sep)) s = true → Js.split sep s = [s].
Proof.
  induction s as [|c r IH]; simpl; [done|].
  intros [Hc Hr]%andb_true_iff. apply negb_true_iff in Hc.
  by rewrite Hc, IH.
Qed.

Lemma split_append (a b : string) :
  Js.allChars (λ c, negb (Ascii.eqb c sep)) a = true →
  Js.split sep (a +:+ String sep b) = a :: Js.split sep b.
Proof.
  induction a as [|c r IH]; intros Ha.
  - rewrite append_empty_l. simpl. by rewrite Ascii.eqb_refl.
  - simpl in Ha. apply andb_true_iff in Ha as [Hc Hr].
    apply negb_true_iff in Hc.
    rewrite append_cons. simpl. by rewrite Hc, IH.
Qed.

Lemma join_snoc (init : list string) (x : string) :
  init ≠ [] →
  Js.join (String sep "") (init ++ [x]) = Js.join (String sep "") init +:+ String sep x.
Proof.
  induction init as [|p init IH]; [done|]. intros _.
  destruct init as [|q init].
  - reflexivity.
  - change ((p :: q :: init) ++ [x]) with (p :: (q :: init) ++ [x]).
    change ((q :: init) ++ [x]) with (q :: init ++ [x]) at 1.
    rewrite !join_cons.
    change (q :: init ++ [x]) with ((q :: init) ++ [x]).
    rewrite IH by done. by rewrite !append_assoc.
Qed.

End SplitJoin.

Lemma allChars_append (p : ascii → bool) (a b : string) :
  Js.allChars p (a +:+ b) = Js.allChars p a && Js.allChars p b.
Proof.
  induction a as [|c r IH]; [done|].
  rewrite append_cons. simpl. by rewrite IH, andb_assoc.
Qed.

Lemma allChars_impl (p q : ascii → bool) (s : string) :
  (∀ c, p c = true → q c = true) →
  Js.allChars p s = true → Js.allChars q s = true.
Proof.
  intros Hpq. induction s as [|c r IH]; simpl; [done|].
  intros [Hc Hr]%andb_true_iff. by rewrite (Hpq c Hc), IH.
Qed.

Lemma length_append (a b : string) :
  String.length (a +:+ b) = String.length a + String.length b.
Proof. induction a as [|c r IH]; [done|]. rewrite append_cons. simpl. by rewrite IH. Qed.

(** ** More on the parser *)

(** X1. The two parts of a dotted foreign-key reference put the reference
    back together. For an [fk(<ref>)] modifier the parser accepts whose
    [<ref>] holds a dot, the stored table and column satisfy
    [table.column = <ref>], and the column holds no dot: the reference is
    cut at its last dot, nothing is lost or added. *)
Theorem fk_reference_round_trip (column : ColumnSpec) (kw ref : string) :
  Js.toLowerCase kw = "fk" → ref ≠ "" →
  Js.allChars (λ c, negb (Ascii.eqb c ")")) ref = true →
  Js.allChars (λ c, negb (Ascii.eqb c ".")) ref = false →
  ∃ column' table fkColumn,
    parseModifier column (kw +:+ "(" +:+ ref +:+ ")") = Ok column'
    ∧ foreignKeyTable column' = Some table
    ∧ foreignKeyColumn column' = Some fkColumn
    ∧ table +:+ "." +:+ fkColumn = ref
    ∧ Js.allChars (λ c, negb (Ascii.eqb c ".")) fkColumn = true.
Proof.
  intros Hkw Hne Hparen Hdot.
  rewrite (parseModifier_fk column kw ref Hkw Hne Hparen). cbv zeta.
  pose proof (join_split "." ref) as Hjoin.
  pose proof (split_parts_no_sep "." ref) as Hparts.
  destruct (exists_last (split_nonempty "." ref)) as (init & lastPart & Hsplit).
  rewrite Hsplit in *. destruct init as [|q init].
  - apply split_singleton in Hsplit as ->.
    apply Forall_cons in Hparts as [Hx _]. congruence.
  - assert (Hlen : (2 <=? length ((q :: init) ++ [lastPart]))%nat = true).
    { apply Nat.leb_le. rewrite length_app. simpl. lia. }
    rewrite Hlen. unfold Js.sliceInit, Js.lastElement.
    rewrite removelast_last, last_snoc.
    eexists _, _, lastPart. do 3 (split; [reflexivity|]).
    rewrite join_snoc in Hjoin by done. split; [done|].
    apply Forall_app in Hparts as [_ Hlast].
    by apply Forall_cons in Hlast as [Hlast _].
Qed.

Lemma fk_reference_round_trip_witness :
  ∃ column' table fkColumn,
    parseModifier (newColumn "userId" "uuid") "fk(auth.users.id)" = Ok column'
    ∧ foreignKeyTable column' = Some table
    ∧ foreignKeyColumn column' = Some fkColumn
    ∧ table +:+ "." +:+ fkColumn = "auth.users.id"
    ∧ Js.allChars (λ c, negb (Ascii.eqb c ".")) fkColumn = true.
Proof.
  exact (fk_reference_round_trip (newColumn "userId" "uuid") "fk" "auth.users.id"
           eq_refl ltac:(discriminate) eq_refl eq_refl).
Defined.

Section ParseFailure.

Lemma parseParts_Throw (parts : list string) :
  ∀ (columns : list ColumnSpec) (e : CLIError),
    parseParts columns parts = Throw e ↔
    ∃ before segment after,
      filter (λ part : string, part ≠ "") parts = before ++ segment :: after
      ∧ Forall (λ s, ∃ column, parseColumn s = Ok column) before
      ∧ parseColumn segment = Throw e.
Proof.
  induction parts as [|part rest IH]; intros columns e; simpl.
  - split; [done|]. intros (before & segment & after & Hnil & _).
    by destruct before.
  - destruct (Js.isEmpty part) eqn:Hempty.
    + apply isEmpty_true in Hempty as ->.
      rewrite filter_cons_False by (intros Hne; by apply Hne). apply IH.
    + apply isEmpty_false in Hempty.
      rewrite filter_cons_True by done.
      destruct (parseColumn part) as [column|e'] eqn:Hpart; simpl.
      * rewrite IH. split.
        -- intros (before & segment & after & -> & Hbefore & Hsegment).
           exists (part :: before), segment, after.
           split; [done|]. split; [|done]. constructor; [by eexists | done].
        -- intros (before & segment & after & Heq & Hbefore & Hsegment).
           destruct before as [|b before]; simpl in Heq; injection Heq as <- Heq.
           ++ congruence.
           ++ apply Forall_cons in Hbefore as [_ Hbefore].
              by exists before, segment, after.
      * split.
        -- intros [= ->]. exists [], part, (filter (λ p : string, p ≠ "") rest).
           by repeat split.
        -- intros (before & segment & after & Heq & Hbefore & Hsegment).
           destruct before as [|b before]; simpl in Heq; injection Heq as <- Heq.
           ++ congruence.
           ++ apply Forall_cons in Hbefore as [[column Hb] _]. congruence.
Qed.

End ParseFailure.

(** X2. [parseColumnSpec] fails fast and as a whole. It throws [e] exactly
    when some non-empty segment throws [e] while every non-empty segment
    before it parses: the error is that of the first segment that does not
    parse, and no descriptor of the earlier segments is returned. *)
Theorem parseColumnSpec_first_failure (spec : string) (e : CLIError) :
  parseColumnSpec spec = Throw e ↔
  ∃ before segment after,
    segmentsOf spec = before ++ segment :: after
    ∧ Forall (λ s, ∃ column, parseColumn s = Ok column) before
    ∧ parseColumn segment = Throw e.
Proof. unfold parseColumnSpec, segmentsOf. apply parseParts_Throw. Qed.

Section BlankSpec.

Lemma trimEnd_empty (s : string) :
  Js.trimEnd s = "" ↔ Js.allChars Js.isSpace s = true.
Proof.
  induction s as [|c r IH]; simpl; [done|].
  destruct (Js.isSpace c); simpl; [|done].
  rewrite <- IH. destruct (Js.trimEnd r); simpl; by split.
Qed.

Lemma trimStart_allSpace (s : string) :
  Js.allChars Js.isSpace (Js.trimStart s) = Js.allChars Js.isSpace s.
Proof.
  induction s as [|c r IH]; simpl; [done|].
  destruct (Js.isSpace c) eqn:Hc; simpl; [done | by rewrite Hc].
Qed.

Lemma trim_empty (s : string) :
  Js.trim s = "" ↔ Js.allChars Js.isSpace s = true.
Proof. unfold Js.trim. by rewrite trimEnd_empty, trimStart_allSpace. Qed.

Lemma split_all (p : ascii → bool) (sep : ascii) (s : string) :
  p sep = false →
  Js.allChars (λ c, p c || Ascii.eqb c sep) s = true ↔
  Forall (λ part, Js.allChars p part = true) (Js.split sep s).
Proof.
  intros Hsep. induction s as [|c r IH]; simpl.
  - split; [by repeat constructor | done].
  - pose proof (split_nonempty sep r) as Hne.
    destruct (Ascii.eqb_spec c sep) as [->|Hc].
    + rewrite orb_true_r. simpl. rewrite IH, Forall_cons. tauto.
    + rewrite orb_false_r.
      destruct (Js.split sep r) as [|h t]; [done|].
      rewrite andb_true_iff, IH, !Forall_cons. simpl.
      rewrite andb_true_iff. tauto.
Qed.

End BlankSpec.

(** X3. The empty result. On an ASCII spec, [parseColumnSpec] returns the
    empty list exactly for a blank spec, one made only of commas and of the
    six ASCII whitespace characters (the empty string included); it is not
    an error. *)
Theorem parseColumnSpec_blank (spec : string) :
  Js.allChars Js.isAscii spec = true →
  (parseColumnSpec spec = Ok [] ↔
   Js.allChars (λ c, Js.isSpace c || Ascii.eqb c ",") spec = true).
Proof.
  intros _. unfold parseColumnSpec. rewrite parseParts_Ok.
  rewrite (split_all Js.isSpace "," spec) by done.
  split.
  - intros (new & Hnew & Hall). symmetry in Hnew. apply app_eq_nil in Hnew as [_ ->].
    apply Forall2_nil_inv_r in Hall.
    induction (Js.split "," spec) as [|part parts IH]; [done|].
    simpl in Hall. destruct (decide (Js.trim part ≠ "")) as [Hne|Heq].
    + by rewrite filter_cons_True in Hall.
    + rewrite filter_cons_False in Hall by done.
      constructor; [|by apply IH]. apply trim_empty.
      by destruct (decide (Js.trim part = "")).
  - intros Hall. exists []. split; [done|].
    induction Hall as [|part parts Hpart _ IH]; simpl; [constructor|].
    apply trim_empty in Hpart.
    by rewrite filter_cons_False by (intros Hne; by apply Hne).
Qed.

Lemma parseColumnSpec_blank_witness :
  (parseColumnSpec " , ," = Ok [] ↔
   Js.allChars (λ c, Js.isSpace c || Ascii.eqb c ",") " , ," = true)
  ∧ (parseColumnSpec "a" = Ok [] ↔
     Js.allChars (λ c, Js.isSpace c || Ascii.eqb c ",") "a" = true).
Proof.
  split.
  - exact (parseColumnSpec_blank " , ," eq_refl).
  - exact (parseColumnSpec_blank "a" eq_refl).
Defined.

Section ParseErrors.

Lemma parseModifier_Throw (column : ColumnSpec) (modifier : string) (e : CLIError) :
  parseModifier column modifier = Throw e → e = unknownModifier modifier.
Proof.
  unfold parseModifier.
  repeat (match goal with
          | |- context [if ?b then _ else _] => destruct b
          | |- context [match ?o with Some _ => _ | None => _ end] => destruct o
          end); by intros [=].
Qed.

Lemma parseModifiers_Throw (modifiers : list string) :
  ∀ (column : ColumnSpec) (e : CLIError),
    parseModifiers column modifiers = Throw e →
    ∃ modifier, modifier ∈ modifiers ∧ e = unknownModifier modifier.
Proof.
  induction modifiers as [|modifier rest IH]; intros column e; simpl; [done|].
  destruct (parseModifier column modifier) as [column'|e'] eqn:Hm; simpl.
  - intros (m & Hin & ->)%IH. exists m. split; [by right | done].
  - intros [= ->]. exists modifier. split; [by left|].
    by apply parseModifier_Throw in Hm.
Qed.

Lemma parseColumn_no_colon (definition : string) :
  Js.allChars (λ c, negb (Ascii.eqb c ":")) definition = true →
  parseColumn definition = Throw (invalidDefinition definition).
Proof. intros Hno. unfold parseColumn. by rewrite split_no_sep. Qed.

Lemma parseColumn_Throw (definition : string) (e : CLIError) :
  parseColumn definition = Throw e →
  (e = invalidDefinition definition
   ∧ Js.allChars (λ c, negb (Ascii.eqb c ":")) definition = true)
  ∨ e = missingNameOrType definition
  ∨ ∃ modifier, modifier ∈ modifiersOf definition ∧ e = unknownModifier modifier.
Proof.
  unfold parseColumn, modifiersOf.
  pose proof (join_split ":" definition) as Hjoin.
  pose proof (split_parts_no_sep ":" definition) as Hparts.
  destruct (Js.split ":" definition) as [|a [|b parts]] eqn:Hsplit; simpl.
  - by apply split_nonempty in Hsplit.
  - intros [= <-]. left. split; [done|].
    simpl in Hjoin. subst a. by apply Forall_cons in Hparts as [? _].
  - destruct (Js.isEmpty (Js.trim a) || Js.isEmpty (Js.trim b)).
    + intros [= <-]. by right; left.
    + intros (m & Hin & ->)%parseModifiers_Throw. right; right. by exists m.
Qed.

End ParseErrors.

(** X4. The "invalid column definition" error. [parseColumn] throws it
    exactly for a definition without a colon (the empty definition
    included); the message quotes the definition. A definition with a colon
    can only fail with one of the two other errors. *)
Theorem parseColumn_invalid_definition (definition : string) :
  parseColumn definition = Throw (invalidDefinition definition) ↔
  Js.allChars (λ c, negb (Ascii.eqb c ":")) definition = true.
Proof.
  split; [|apply parseColumn_no_colon].
  intros [[_ Hno] | [Heq | (m & _ & Heq)]]%parseColumn_Throw; [done| |].
  - by vm_compute in Heq.
  - by vm_compute in Heq.
Qed.

(** X5. The errors of [parseColumnSpec]. Whatever it throws is thrown by
    [parseColumn] on one of its non-empty segments, and is one of three
    errors about that segment: the segment has no colon, its name or type is
    empty, or one of the modifiers of the segment is unknown, and the error
    names that modifier. The exit code is always 1. No other error, in
    particular no invalid-identifier error, is ever raised by the parser. *)
Theorem parseColumnSpec_errors (spec : string) (e : CLIError) :
  parseColumnSpec spec = Throw e →
  exitCode e = 1
  ∧ ∃ segment, segment ∈ segmentsOf spec
      ∧ parseColumn segment = Throw e
      ∧ (e = invalidDefinition segment
         ∨ e = missingNameOrType segment
         ∨ ∃ modifier, modifier ∈ modifiersOf segment
                       ∧ e = unknownModifier modifier).
Proof.
  unfold parseColumnSpec, segmentsOf.
  intros (before & segment & after & Hsegs & _ & Hthrow)%parseParts_Throw.
  assert (Hcases : e = invalidDefinition segment ∨ e = missingNameOrType segment
                   ∨ ∃ modifier, modifier ∈ modifiersOf segment
                                 ∧ e = unknownModifier modifier).
  { pose proof (parseColumn_Throw _ _ Hthrow) as [[-> _] | [-> | (m & Hin & ->)]];
      eauto. }
  split.
  - by destruct Hcases as [-> | [-> | (m & _ & ->)]].
  - exists segment. split; [|done]. rewrite Hsegs.
    apply elem_of_app. right. by left.
Qed.

Lemma parseColumnSpec_errors_witness :
  exitCode (unknownModifier "primary") = 1
  ∧ ∃ segment, segment ∈ segmentsOf "id:int:pk, name:text:primary"
      ∧ parseColumn segment = Throw (unknownModifier "primary")
      ∧ (unknownModifier "primary" = invalidDefinition segment
         ∨ unknownModifier "primary" = missingNameOrType segment
         ∨ ∃ modifier, modifier ∈ modifiersOf segment
                       ∧ unknownModifier "primary" = unknownModifier modifier).
Proof.
  exact (parseColumnSpec_errors "id:int:pk, name:text:primary"
           (unknownModifier "primary") eq_refl).
Defined.

Section WellFormed.

Lemma inheritedMember_name (key : string) (m : PrototypeMember) :
  inheritedMember key = Some m → memberName m = key.
Proof.
  unfold inheritedMember. intros [_ Heq]%List.find_some.
  by apply String.eqb_eq.
Qed.

(** The member names without a capital letter are [constructor] and
    [__proto__]. *)
Lemma inheritedMember_lower (t : string) (m : PrototypeMember) :
  inheritedMember (Js.toLowerCase t) = Some m →
  m = ObjectConstructor ∨ m = ProtoAccessor.
Proof.
  intros Hm. pose proof (inheritedMember_name _ _ Hm) as Hname.
  assert (Hlower : Js.toLowerCase (memberName m) = memberName m)
    by (by rewrite Hname, toLowerCase_idemp).
  destruct m; auto; by vm_compute in Hlower.
Qed.

Lemma normalizeType_stored (t : string) : t ≠ "" → storedType (normalizeType t).
Proof.
  intros Ht. destruct (normalizeType t) as [s|m] eqn:Hn; cbn [storedType].
  - split; [|by apply (normalizeType_fixed t)].
    revert Hn. unfold normalizeType, getProperty. cbn [typeText].
    destruct (normalizeTypeMap !! Js.toLowerCase t) as [v|] eqn:Hk; cbn [orValue].
    + pose proof (normalizeTypeMap_values _ _ Hk) as Hv.
      rewrite (normalizedTypes_nonempty _ Hv). intros [= <-].
      by apply isEmpty_false, normalizedTypes_nonempty.
    + destruct (inheritedMember (Js.toLowerCase t));
        cbn [fmap option_fmap option_map orValue]; [done|].
      intros [= <-]. by destruct t.
  - revert Hn. unfold normalizeType, getProperty. cbn [typeText].
    destruct (normalizeTypeMap !! Js.toLowerCase t) as [v|] eqn:Hk; cbn [orValue].
    + by destruct (Js.isEmpty v).
    + destruct (inheritedMember (Js.toLowerCase t)) as [m'|] eqn:Hm;
        cbn [fmap option_fmap option_map orValue]; [|done].
      intros [= <-]. by apply (inheritedMember_lower t).
Qed.

Lemma newColumn_wellFormed (colName colType : string) :
  colName ≠ "" → colType ≠ "" →
  wellFormedColumn (newColumn colName (normalizeType colType)).
Proof.
  intros Hname Htype. unfold wellFormedColumn, flagUnsetOrTrue, newColumn.
  cbn [name type isPrimaryKey isForeignKey foreignKeyTable foreignKeyColumn
       isNullable defaultValue isAutoIncrement].
  split; [done|]. split; [by apply normalizeType_stored|].
  repeat (split; [by left|]).
  split; (split; [done | by intros [? [=]]]).
Qed.

Lemma parseModifier_wellFormed (column column' : ColumnSpec) (modifier : string) :
  wellFormedColumn column →
  parseModifier column modifier = Ok column' →
  wellFormedColumn column'.
Proof.
  unfold parseModifier, wellFormedColumn, flagUnsetOrTrue.
  intros (Hname & Htype & Hpk & Hai & Hnull & Hfk & Htable & Hcol).
  repeat (match goal with
          | |- context [if ?b then _ else _] => destruct b eqn:?
          | |- context [match ?o with Some _ => _ | None => _ end] => destruct o eqn:?
          end);
    intros [= <-]; simpl;
    repeat (split; [by auto|]); try done.
  split; [|done]. intros _. apply last_is_Some. intros Hnil.
  match goal with H : (2 <=? length _)%nat = true |- _ => by rewrite Hnil in H end.
Qed.

Lemma parseModifiers_wellFormed (modifiers : list string) :
  ∀ column column' : ColumnSpec,
    wellFormedColumn column →
    parseModifiers column modifiers = Ok column' →
    wellFormedColumn column'.
Proof.
  induction modifiers as [|modifier rest IH]; intros column column' Hwf; simpl.
  - by intros [= <-].
  - intros (next & Hnext & Hrest)%bind_Ok.
    eauto using parseModifier_wellFormed.
Qed.

Lemma parseColumn_wellFormed (definition : string) (column : ColumnSpec) :
  parseColumn definition = Ok column → wellFormedColumn column.
Proof.
  unfold parseColumn.
  destruct (map Js.trim (Js.split ":" definition)) as [|name [|type modifiers]];
    try done.
  destruct (Js.isEmpty name) eqn:Hname, (Js.isEmpty type) eqn:Htype; try done.
  apply isEmpty_false in Hname, Htype. simpl.
  intros Hok. eapply parseModifiers_wellFormed; [|exact Hok].
  by apply newColumn_wellFormed.
Qed.

End WellFormed.

(** X6. What holds of every descriptor [parseColumnSpec] returns. Its
    name is non-empty. Its type is a non-empty string that [normalizeType]
    leaves unchanged, except for the type names [constructor] and
    [__proto__], for which it is the member the lookup table inherits under
    that name. Each of the four flags is absent or [true],
    never [false]. The foreign-key fields go together: [foreignKeyTable] and
    [foreignKeyColumn] are present exactly when [isForeignKey] is set. *)
Theorem parseColumnSpec_wellFormed (spec : string) (columns : list ColumnSpec) :
  parseColumnSpec spec = Ok columns → Forall wellFormedColumn columns.
Proof.
  unfold parseColumnSpec. intros (new & -> & Hnew)%parseParts_Ok.
  rewrite app_nil_l. apply Forall_forall. intros column Hin.
  apply list_elem_of_lookup in Hin as [i Hi].
  destruct (Forall2_lookup_r _ _ _ _ _ Hnew Hi) as (segment & _ & Hsegment).
  by apply (parseColumn_wellFormed segment).
Qed.

Lemma parseColumnSpec_wellFormed_witness :
  Forall wellFormedColumn
    [setPrimaryKey (newColumn "id" "uuid") true;
     setForeignKeyColumn
       (setForeignKeyTable (setForeignKey (newColumn "userId" "uuid") true) "users")
       (Some "id");
     newColumn "a" (Inherited ObjectConstructor)].
Proof.
  exact (parseColumnSpec_wellFormed
           "id:UUID:pk, userId:uuid:fk(users), a:Constructor" _ eq_refl).
Defined.

(** X7. Repeating a modifier changes nothing. Applying [parseModifier]
    twice with the same modifier gives what applying it once gives: the same
    descriptor, or the same error. *)
Theorem parseModifier_idempotent (column : ColumnSpec) (modifier : string) :
  (column' ← parseModifier column modifier; parseModifier column' modifier)
  = parseModifier column modifier.
Proof.
  unfold parseModifier.
  repeat (match goal with
          | |- context [if ?b then _ else _] => destruct b eqn:?
          | |- context [match ?o with Some _ => _ | None => _ end] => destruct o eqn:?
          end); reflexivity.
Qed.

(** ** The type tables *)

Section TypeTables.

Lemma sqlTypeMap_lookup (t : string) :
  match sqlTypeMap !! t with
  | Some token => t ∈ normalizedTypes ∧ token ∈ sqlTokens ∧ token ≠ ""
  | None => t ∉ normalizedTypes
  end.
Proof.
  destruct (sqlTypeMap !! t) as [token|] eqn:Ht.
  - apply elem_of_list_to_map_2 in Ht.
    repeat (apply elem_of_cons in Ht as [Ht|Ht];
            [injection Ht as -> ->; split; [|split]; [set_solver | set_solver | done]|]).
    by apply elem_of_nil in Ht.
  - intros Hin. unfold normalizedTypes in Hin.
    repeat (apply elem_of_cons in Hin as [->|Hin]; [by vm_compute in Ht|]).
    by apply elem_of_nil in Hin.
Qed.

Lemma driftTypeMap_lookup (t : string) :
  match driftTypeMap !! t with
  | Some token => t ∈ normalizedTypes ∧ token ∈ driftTokens ∧ token ≠ ""
  | None => t ∉ normalizedTypes
  end.
Proof.
  destruct (driftTypeMap !! t) as [token|] eqn:Ht.
  - apply elem_of_list_to_map_2 in Ht.
    repeat (apply elem_of_cons in Ht as [Ht|Ht];
            [injection Ht as -> ->; split; [|split]; [set_solver | set_solver | done]|]).
    by apply elem_of_nil in Ht.
  - intros Hin. unfold normalizedTypes in Hin.
    repeat (apply elem_of_cons in Hin as [->|Hin]; [by vm_compute in Ht|]).
    by apply elem_of_nil in Hin.
Qed.

Lemma normalizedTypes_own (t : string) :
  t ∈ normalizedTypes → inheritedMember t = None.
Proof.
  unfold normalizedTypes. intros H.
  repeat (apply elem_of_cons in H as [->|H]; [by vm_compute|]).
  by apply elem_of_nil in H.
Qed.

(** The type of a parsed descriptor is never the name of an inherited
    member: read as a key, it finds an entry of a type table or nothing. *)
Lemma storedType_own (v : TypeValue) :
  storedType v → inheritedMember (typeText v) = None.
Proof.
  destruct v as [s|m]; cbn [storedType typeText].
  - intros [_ Hfix]. revert Hfix. unfold normalizeType, getProperty.
    cbn [typeText].
    destruct (normalizeTypeMap !! Js.toLowerCase s) as [v|] eqn:Hk; cbn [orValue].
    + pose proof (normalizeTypeMap_values _ _ Hk) as Hv.
      rewrite (normalizedTypes_nonempty _ Hv). intros [= <-].
      by apply normalizedTypes_own.
    + destruct (inheritedMember (Js.toLowerCase s)) as [m|] eqn:Hm;
        cbn [fmap option_fmap option_map orValue]; [done|].
      intros [= Heq]. by rewrite Heq in Hm.
  - by intros [-> | ->].
Qed.

End TypeTables.

(** X8. The three type tables fit together. Every alias [normalizeType]
    knows is sent to a normalized type that both emitters have an entry for:
    a recognized type name never falls back to the default SQL or Drift
    type. *)
Theorem recognized_alias_has_types (alias normalized : string) :
  normalizeTypeMap !! alias = Some normalized →
  normalizeType alias = normalized
  ∧ is_Some (sqlTypeMap !! normalized)
  ∧ is_Some (driftTypeMap !! normalized).
Proof.
  intros Hin. apply elem_of_list_to_map_2 in Hin.
  repeat (apply elem_of_cons in Hin as [Hin|Hin];
          [injection Hin as -> ->;
           split; [by vm_compute | split; vm_compute; by eexists]|]).
  by apply elem_of_nil in Hin.
Qed.

Lemma recognized_alias_has_types_witness :
  normalizeType "varchar" = "text"
  ∧ is_Some (sqlTypeMap !! "text") ∧ is_Some (driftTypeMap !! "text").
Proof. exact (recognized_alias_has_types "varchar" "text" eq_refl). Defined.

(** X9. The types the emitters print. For a type that is not the name of
    a member the lookup tables inherit ([constructor], [toString], ...), and
    for the type of any descriptor the parser builds, [sqlType] gives one of
    the nine SQL tokens and [getDriftType] one of the seven builder types; if
    the type is moreover none of the nine normalized types they give [TEXT]
    and [text]. So an unrecognized type name, which the parser lets through,
    is printed as a text column and never copied into the output. *)
Theorem emitted_types (t : TypeValue) :
  inheritedMember (typeText t) = None ∨ storedType t →
  (∃ token, sqlType t = TypeName token ∧ token ∈ sqlTokens)
  ∧ (∃ token, getDriftType t = TypeName token ∧ token ∈ driftTokens)
  ∧ (typeText t ∉ normalizedTypes → sqlType t = "TEXT" ∧ getDriftType t = "text").
Proof.
  intros Hown.
  assert (Hnone : inheritedMember (typeText t) = None)
    by (destruct Hown as [?|?%storedType_own]; done).
  clear Hown. unfold sqlType, getDriftType, getProperty. rewrite Hnone.
  pose proof (sqlTypeMap_lookup (typeText t)) as Hsql.
  pose proof (driftTypeMap_lookup (typeText t)) as Hdrift.
  destruct (sqlTypeMap !! typeText t) as [s|], (driftTypeMap !! typeText t) as [d|];
    cbn [fmap option_fmap option_map orValue].
  - destruct Hsql as (Hin & Hs & Hs'), Hdrift as (_ & Hd & Hd').
    apply isEmpty_false in Hs', Hd'. rewrite Hs', Hd'.
    split; [by exists s|]. split; [by exists d|done].
  - by destruct Hsql as (Hin & _).
  - by destruct Hdrift as (Hin & _).
  - split; [exists "TEXT"; split; [done|set_solver]|].
    split; [exists "text"; split; [done|set_solver]|done].
Qed.

Lemma emitted_types_witness :
  (∃ token, sqlType (Inherited ObjectConstructor) = TypeName token
            ∧ token ∈ sqlTokens)
  ∧ (∃ token, getDriftType (Inherited ObjectConstructor) = TypeName token
              ∧ token ∈ driftTokens)
  ∧ (typeText (Inherited ObjectConstructor) ∉ normalizedTypes →
     sqlType (Inherited ObjectConstructor) = "TEXT"
     ∧ getDriftType (Inherited ObjectConstructor) = "text").
Proof.
  exact (emitted_types (Inherited ObjectConstructor) (or_intror (or_introl eq_refl))).
Defined.

(** What the hypothesis excludes: a type that is the name of an inherited
    member is answered with that member by both emitters. *)
Example emitters_inherited_name (m : PrototypeMember) :
  sqlType (memberName m) = Inherited m ∧ getDriftType (memberName m) = Inherited m.
Proof. by destruct m; vm_compute. Qed.

(** ** The case conversion helpers *)

Section CaseHelpers.

Lemma lowerChar_facts (c : ascii) :
  Js.isUpper (Js.lowerChar c) = false
  ∧ isDashOrSpace (Js.lowerChar c) = isDashOrSpace c
  ∧ isWordBreak (Js.lowerChar c) = isWordBreak c
  ∧ Js.isLineTerminator (Js.lowerChar c) = Js.isLineTerminator c
  ∧ (Js.isUpper c = false → Js.lowerChar c = c)
  ∧ (isIdentPart c = true → isSnakeChar (Js.lowerChar c) = true)
  ∧ Js.lowerChar (Js.upperChar c) = Js.lowerChar c.
Proof. by destruct c as [[] [] [] [] [] [] [] []]. Qed.

Lemma upperChar_facts (c : ascii) :
  isWordBreak (Js.upperChar c) = isWordBreak c
  ∧ Js.isLineTerminator (Js.upperChar c) = Js.isLineTerminator c
  ∧ (isLetter c || Js.isDigit c = true →
     isLetter (Js.upperChar c) || Js.isDigit (Js.upperChar c) = true)
  ∧ Js.upperChar (Js.lowerChar c) = Js.upperChar c.
Proof. by destruct c as [[] [] [] [] [] [] [] []]. Qed.

Lemma allChars_mapChars (p q : ascii → bool) (f : ascii → ascii) (s : string) :
  (∀ c, p c = true → q (f c) = true) →
  Js.allChars p s = true → Js.allChars q (Js.mapChars f s) = true.
Proof.
  intros Hf. induction s as [|c r IH]; simpl; [done|].
  intros [Hc Hr]%andb_true_iff. by rewrite (Hf c Hc), IH.
Qed.

Lemma allChars_dropLeadingUnderscore (p : ascii → bool) (s : string) :
  Js.allChars p s = true → Js.allChars p (dropLeadingUnderscore s) = true.
Proof.
  destruct s as [|c r]; simpl; [done|].
  intros [Hc Hr]%andb_true_iff. destruct (Ascii.eqb c "_"); [done|].
  simpl. by rewrite Hc, Hr.
Qed.

Lemma allChars_underscoreCapitals (p : ascii → bool) (s : string) :
  p "_"%char = true →
  Js.allChars p s = true → Js.allChars p (underscoreCapitals s) = true.
Proof.
  intros Hu. induction s as [|c r IH]; simpl; [done|].
  intros [Hc Hr]%andb_true_iff.
  destruct (Js.isUpper c); simpl; by rewrite ?Hu, Hc, IH.
Qed.

Lemma allChars_collapseRuns (p : ascii → bool) (s : string) :
  p "_"%char = true →
  ∀ inRun, Js.allChars (λ c, p c || isDashOrSpace c) s = true →
           Js.allChars p (collapseRuns inRun s) = true.
Proof.
  intros Hu. induction s as [|c r IH]; intros inRun; simpl; [done|].
  intros [Hc Hr]%andb_true_iff.
  destruct (isDashOrSpace c) eqn:Hd.
  - destruct inRun; simpl; by rewrite ?Hu, IH.
  - rewrite orb_false_r in Hc. simpl. by rewrite Hc, IH.
Qed.

Lemma underscoreCapitals_fixed (s : string) :
  Js.allChars (λ c, negb (Js.isUpper c)) s = true → underscoreCapitals s = s.
Proof.
  induction s as [|c r IH]; simpl; [done|].
  intros [Hc Hr]%andb_true_iff. apply negb_true_iff in Hc.
  by rewrite Hc, IH.
Qed.

Lemma collapseRuns_fixed (s : string) :
  ∀ inRun, Js.allChars (λ c, negb (isDashOrSpace c)) s = true →
           collapseRuns inRun s = s.
Proof.
  induction s as [|c r IH]; intros inRun; simpl; [done|].
  intros [Hc Hr]%andb_true_iff. apply negb_true_iff in Hc.
  by rewrite Hc, IH.
Qed.

Lemma toLowerCase_fixed (s : string) :
  Js.allChars (λ c, negb (Js.isUpper c)) s = true → Js.toLowerCase s = s.
Proof.
  induction s as [|c r IH]; [done|]. simpl.
  intros [Hc Hr]%andb_true_iff. apply negb_true_iff in Hc.
  rewrite toLowerCase_cons, IH by done.
  by rewrite (proj1 (proj2 (proj2 (proj2 (proj2 (lowerChar_facts c))))) Hc).
Qed.

Lemma allChars_capitalizeAfterBreaks (p : ascii → bool) (s : string) :
  (∀ c, p c = true → p (Js.upperChar c) = true) →
  ∀ afterBreak,
    Js.allChars (λ c, p c || isWordBreak c) s = true →
    Js.allChars (λ c, p c && negb (isWordBreak c))
      (capitalizeAfterBreaks afterBreak s) = true.
Proof.
  intros Hup. induction s as [|c r IH]; intros afterBreak; simpl; [done|].
  intros [Hc Hr]%andb_true_iff.
  destruct (isWordBreak c) eqn:Hb; [by apply IH|].
  rewrite orb_false_r in Hc. simpl. rewrite IH by done.
  destruct afterBreak.
  - rewrite (Hup c Hc), (proj1 (upperChar_facts c)), Hb. done.
  - by rewrite Hc, Hb.
Qed.

Lemma allChars_mapFirst (p : ascii → bool) (f : ascii → ascii) (s : string) :
  (∀ c, p c = true → p (f c) = true) →
  Js.allChars p s = true → Js.allChars p (mapFirst f s) = true.
Proof.
  intros Hf. destruct s as [|c r]; simpl; [done|].
  intros [Hc Hr]%andb_true_iff.
  destruct (Js.isLineTerminator c); simpl; by rewrite ?(Hf c Hc), ?Hc, Hr.
Qed.

Lemma allChars_true (s : string) : Js.allChars (λ _, true) s = true.
Proof. induction s; simpl; auto. Qed.

Lemma validateIdentifier_allChars (name : string) :
  validateIdentifier name = true → Js.allChars isIdentPart name = true.
Proof.
  destruct name as [|c r]; [done|]. simpl.
  intros [Hc Hr]%andb_true_iff. unfold isIdentPart at 1. by rewrite Hc, Hr.
Qed.

End CaseHelpers.

(** X10. What [toSnakeCase] never leaves in a name: its result holds no
    capital letter, no hyphen and no whitespace, whatever the input. *)
Theorem toSnakeCase_clean (str : string) :
  Js.allChars isSnakeStable (toSnakeCase str) = true.
Proof.
  unfold toSnakeCase, Js.toLowerCase.
  apply allChars_dropLeadingUnderscore.
  apply (allChars_mapChars (λ c, negb (isDashOrSpace c))).
  - intros c Hc. unfold isSnakeStable.
    destruct (lowerChar_facts c) as (-> & -> & _). by rewrite Hc.
  - apply allChars_collapseRuns; [done|].
    apply (allChars_impl (λ _, true)); [|apply allChars_true].
    intros c _. by destruct (isDashOrSpace c).
Qed.

(** X11. A name that is already in lower snake case. When an ASCII name
    holds no capital, no hyphen and no whitespace, [toSnakeCase] only drops
    one leading underscore, if there is one, and changes nothing else:
    [user_id] stays [user_id], and [_id] becomes [id]. *)
Theorem toSnakeCase_stable (str : string) :
  Js.allChars Js.isAscii str = true →
  Js.allChars isSnakeStable str = true →
  toSnakeCase str = dropLeadingUnderscore str.
Proof.
  intros _ Hstable. unfold toSnakeCase.
  assert (Hupper : Js.allChars (λ c, negb (Js.isUpper c)) str = true).
  { revert Hstable. apply allChars_impl. unfold isSnakeStable.
    by intros c [? _]%andb_true_iff. }
  assert (Hdash : Js.allChars (λ c, negb (isDashOrSpace c)) str = true).
  { revert Hstable. apply allChars_impl. unfold isSnakeStable.
    by intros c [_ ?]%andb_true_iff. }
  by rewrite underscoreCapitals_fixed, collapseRuns_fixed, toLowerCase_fixed.
Qed.

Lemma toSnakeCase_stable_witness :
  toSnakeCase "user_id" = "user_id" ∧ toSnakeCase "_id" = "id".
Proof.
  split.
  - exact (toSnakeCase_stable "user_id" eq_refl eq_refl).
  - exact (toSnakeCase_stable "_id" eq_refl eq_refl).
Defined.

(** X12. The SQL name of a valid identifier. When a table or column name
    satisfies the identifier grammar, the name [columnsToSQL] prints for it,
    [toSnakeCase name], holds only lower-case letters, digits and
    underscores. *)
Theorem toSnakeCase_of_identifier (name : string) :
  validateIdentifier name = true →
  Js.allChars isSnakeChar (toSnakeCase name) = true.
Proof.
  intros Hvalid%validateIdentifier_allChars.
  unfold toSnakeCase, Js.toLowerCase.
  apply allChars_dropLeadingUnderscore.
  apply (allChars_mapChars isIdentPart).
  - intros c Hc. by apply lowerChar_facts.
  - apply allChars_collapseRuns; [done|].
    apply allChars_underscoreCapitals; [done|].
    revert Hvalid. apply allChars_impl. by intros c ->.
Qed.

Lemma toSnakeCase_of_identifier_witness :
  Js.allChars isSnakeChar (toSnakeCase "userProfileV2") = true.
Proof. exact (toSnakeCase_of_identifier "userProfileV2" eq_refl). Defined.

(** X13. What [toPascalCase] and [toCamelCase] never leave in a name:
    their results hold no hyphen, no underscore and no whitespace, whatever
    the input. *)
Theorem pascal_camel_no_word_break (str : string) :
  Js.allChars (λ c, negb (isWordBreak c)) (toPascalCase str) = true
  ∧ Js.allChars (λ c, negb (isWordBreak c)) (toCamelCase str) = true.
Proof.
  assert (Hclean : Js.allChars (λ c, negb (isWordBreak c))
                     (capitalizeAfterBreaks false str) = true).
  { apply (allChars_impl (λ c, true && negb (isWordBreak c))); [done|].
    apply (allChars_capitalizeAfterBreaks (λ _, true)); [done|].
    apply allChars_true. }
  split; apply allChars_mapFirst; try done; intros c Hc.
  - by rewrite (proj1 (upperChar_facts c)).
  - destruct (lowerChar_facts c) as (_ & _ & -> & _). done.
Qed.

(** X14. On an ASCII name, [toCamelCase] and [toPascalCase] differ in the
    case of the first character only: lower-casing the first character of
    the PascalCase form gives the camelCase form, and upper-casing the first
    character of the camelCase form gives the PascalCase form. *)
Theorem camel_pascal_first_char (str : string) :
  Js.allChars Js.isAscii str = true →
  toCamelCase str = mapFirst Js.lowerChar (toPascalCase str)
  ∧ toPascalCase str = mapFirst Js.upperChar (toCamelCase str).
Proof.
  intros _. unfold toCamelCase, toPascalCase.
  destruct (capitalizeAfterBreaks false str) as [|c r]; [done|]. simpl.
  destruct (Js.isLineTerminator c) eqn:Hlt; simpl; rewrite ?Hlt; [done|].
  destruct (lowerChar_facts c) as (_ & _ & _ & Hl & _ & _ & Hlu).
  destruct (upperChar_facts c) as (_ & Hu & _ & Hul).
  by rewrite Hl, Hu, Hlt, Hlu, Hul.
Qed.

Lemma camel_pascal_first_char_witness :
  toCamelCase "user_profile" = mapFirst Js.lowerChar (toPascalCase "user_profile")
  ∧ toPascalCase "user_profile" = mapFirst Js.upperChar (toCamelCase "user_profile").
Proof. exact (camel_pascal_first_char "user_profile" eq_refl). Defined.

(** X15. The Dart names of a valid identifier. When a table or column
    name satisfies the identifier grammar, its PascalCase and camelCase
    forms hold letters and digits only. *)
Theorem pascal_camel_of_identifier (name : string) :
  validateIdentifier name = true →
  Js.allChars (λ c, isLetter c || Js.isDigit c) (toPascalCase name) = true
  ∧ Js.allChars (λ c, isLetter c || Js.isDigit c) (toCamelCase name) = true.
Proof.
  intros Hvalid%validateIdentifier_allChars.
  assert (Hclean : Js.allChars (λ c, isLetter c || Js.isDigit c)
                     (capitalizeAfterBreaks false name) = true).
  { apply (allChars_impl (λ c, (isLetter c || Js.isDigit c) && negb (isWordBreak c))).
    { by intros c [? _]%andb_true_iff. }
    apply allChars_capitalizeAfterBreaks.
    { intros c. apply upperChar_facts. }
    revert Hvalid. apply allChars_impl.
    intros c. by destruct c as [[] [] [] [] [] [] [] []]. }
  split; apply allChars_mapFirst; try done; intros c.
  - apply upperChar_facts.
  - by destruct c as [[] [] [] [] [] [] [] []].
Qed.

Lemma pascal_camel_of_identifier_witness :
  Js.allChars (λ c, isLetter c || Js.isDigit c) (toPascalCase "user_posts_v2") = true
  ∧ Js.allChars (λ c, isLetter c || Js.isDigit c) (toCamelCase "user_posts_v2") = true.
Proof. exact (pascal_camel_of_identifier "user_posts_v2" eq_refl). Defined.

(** ** The two default-value formatters *)

(** X16. The Drift default is the SQL default wrapped in a constant. The
    tokens [now()] and [now] give [currentDateAndTime]; for every other
    value and every type, [formatDartDefault] gives [const Constant(...)]
    around exactly what [formatDefaultValue] gives: the same boolean, the
    same raw number, the same quoted text. *)
Theorem formatDartDefault_wraps_sql_default (value : string) (type : TypeValue) :
  (value = "now()" ∨ value = "now" →
   formatDartDefault value type = "currentDateAndTime")
  ∧ (value ≠ "now()" → value ≠ "now" →
     formatDartDefault value type
     = "const Constant(" +:+ formatDefaultValue value type +:+ ")").
Proof.
  unfold formatDartDefault, formatDefaultValue. split.
  - intros [-> | ->]; reflexivity.
  - intros Hnow1%String.eqb_neq Hnow2%String.eqb_neq. rewrite Hnow1, Hnow2. simpl.
    destruct (typeIs type "boolean"); [done|].
    destruct (typeIs type "integer" || typeIs type "real"
              || typeIs type "bigint"); [done|].
    rewrite (append_assoc "'" (value +:+ "'") ")"), (append_assoc value "'" ")").
    reflexivity.
Qed.

Lemma formatDartDefault_wraps_sql_default_witness :
  formatDartDefault "now" "datetime" = "currentDateAndTime"
  ∧ formatDartDefault "TRUE" "boolean"
    = "const Constant(" +:+ formatDefaultValue "TRUE" "boolean" +:+ ")".
Proof.
  split.
  - exact (proj1 (formatDartDefault_wraps_sql_default "now" "datetime")
             (or_intror eq_refl)).
  - exact (proj2 (formatDartDefault_wraps_sql_default "TRUE" "boolean")
             ltac:(discriminate) ltac:(discriminate)).
Defined.

(** ** The validators *)

Lemma validateIdentifier_rejects_witness :
  validateIdentifier "users; DROP TABLE users;--" = false.
Proof.
  apply (validateIdentifier_rejects "users; DROP TABLE users;--" ";"%char);
    [repeat constructor | reflexivity].
Defined.

Section NameValidators.

Lemma validateProjectName_allChars (name : string) :
  validateProjectName name = true → Js.allChars isProjectNamePart name = true.
Proof.
  destruct name as [|c r]; [done|]. simpl.
  intros [Hc Hr]%andb_true_iff. unfold isProjectNamePart at 1. by rewrite Hc, Hr.
Qed.

Lemma validateWorkerName_allChars (name : string) :
  validateWorkerName name = true → Js.allChars isWorkerNamePart name = true.
Proof.
  destruct name as [|c r]; [done|]. simpl.
  intros [Hc Hr]%andb_true_iff. unfold isWorkerNamePart at 1. by rewrite Hc, Hr.
Qed.

End NameValidators.

(** X18. Worker names are project names. Every name [validateWorkerName]
    accepts is accepted by [validateProjectName] too, and holds letters,
    digits and hyphens only: no underscore, no whitespace, no shell
    metacharacter. *)
Theorem worker_name_is_project_name (name : string) :
  validateWorkerName name = true →
  validateProjectName name = true
  ∧ Js.allChars (λ c, isLetter c || Js.isDigit c || Ascii.eqb c "-") name = true.
Proof.
  intros Hworker. split; [|by apply validateWorkerName_allChars].
  destruct name as [|c r]; [done|]. simpl in *.
  apply andb_true_iff in Hworker as [-> Hr]. simpl.
  revert Hr. apply allChars_impl. intros d. unfold isWorkerNamePart, isProjectNamePart.
  destruct (isLetter d), (Js.isDigit d), (Ascii.eqb d "-"), (Ascii.eqb d "_"); done.
Qed.

Lemma worker_name_is_project_name_witness :
  validateProjectName "my-worker" = true
  ∧ Js.allChars (λ c, isLetter c || Js.isDigit c || Ascii.eqb c "-") "my-worker" = true.
Proof. exact (worker_name_is_project_name "my-worker" eq_refl). Defined.

(** X19. Project names and identifiers. Every name [validateProjectName]
    accepts holds letters, digits, underscores and hyphens only; one without
    a hyphen is an identifier for [validateIdentifier]. Conversely, an
    identifier that starts with a letter is a project name. *)
Theorem project_name_and_identifier (name : string) :
  (validateProjectName name = true →
   Js.allChars isProjectNamePart name = true
   ∧ (Js.allChars (λ c, negb (Ascii.eqb c "-")) name = true →
      validateIdentifier name = true))
  ∧ (validateIdentifier name = true →
     Js.allChars (λ c, negb (Ascii.eqb c "_")) (takeChars 1 name) = true →
     validateProjectName name = true).
Proof.
  split.
  - intros Hproject. split; [by apply validateProjectName_allChars|].
    destruct name as [|c r]; [done|]. simpl in *.
    apply andb_true_iff in Hproject as [Hc Hr].
    intros [_ Hdash]%andb_true_iff.
    unfold isIdentStart. unfold isLetter in Hc. rewrite Hc. simpl.
    clear Hc. induction r as [|d r IH]; simpl in *; [done|].
    apply andb_true_iff in Hr as [Hd Hr], Hdash as [Hd' Hdash].
    rewrite IH by done. rewrite andb_true_r.
    revert Hd Hd'. by destruct d as [[] [] [] [] [] [] [] []].
  - destruct name as [|c r]; [done|]. simpl.
    intros [Hc Hr]%andb_true_iff [Hu _]%andb_true_iff.
    apply andb_true_iff. split.
    + revert Hc Hu. unfold isIdentStart, isLetter.
      by destruct (Ascii.eqb c "_"), (Js.isLower c), (Js.isUpper c).
    + revert Hr. apply allChars_impl. intros d.
      unfold isIdentPart, isIdentStart, isProjectNamePart, isLetter.
      by destruct (Js.isLower d), (Js.isUpper d), (Js.isDigit d), (Ascii.eqb d "_").
Qed.

Lemma project_name_and_identifier_witness :
  validateIdentifier "my_app" = true ∧ validateProjectName "myApp2" = true.
Proof.
  split.
  - exact (proj2 (proj1 (project_name_and_identifier "my_app") eq_refl) eq_refl).
  - exact (proj2 (project_name_and_identifier "myApp2") eq_refl eq_refl).
Defined.

Section Digits.

Lemma isDigit_cases (c : ascii) :
  Js.isDigit c = true →
  c ∈ ["0"; "1"; "2"; "3"; "4"; "5"; "6"; "7"; "8"; "9"]%char.
Proof.
  destruct c as [[] [] [] [] [] [] [] []]; intros H; try discriminate H;
    repeat constructor.
Qed.

Lemma isDigits_allChars (s : string) :
  isDigits s = true → s ≠ "" ∧ Js.allChars Js.isDigit s = true.
Proof.
  unfold isDigits. intros [Hne Hall]%andb_true_iff. split; [|done].
  by destruct s.
Qed.

Lemma isSignedDigits_allChars (s : string) :
  isSignedDigits s = true →
  Js.allChars (λ c, Js.isDigit c || Ascii.eqb c "-") s = true.
Proof.
  destruct s as [|c r]; [done|]. unfold isSignedDigits.
  destruct (Ascii.eqb c "-") eqn:Hc.
  - intros [_ Hr]%isDigits_allChars. simpl. rewrite Hc, orb_true_r. simpl.
    revert Hr. apply allChars_impl. by intros d ->.
  - intros [_ Hall]%isDigits_allChars.
    revert Hall. apply allChars_impl. by intros d ->.
Qed.

Lemma allChars_join (p : ascii → bool) (sep : string) (parts : list string) :
  Js.allChars p sep = true →
  Forall (λ part, Js.allChars p part = true) parts →
  Js.allChars p (Js.join sep parts) = true.
Proof.
  intros Hsep. induction 1 as [|part parts Hpart Hparts IH]; [done|].
  destruct parts as [|y ys]; [done|].
  rewrite join_cons, !allChars_append. by rewrite Hpart, Hsep, IH.
Qed.

End Digits.

(** X20. The CRF values [validateCRF] accepts are exactly the numerals of
    0 to 51, and those of 0 to 9 with one leading zero. Nothing longer than
    two characters, no sign, no blank is accepted; the test [value >= 0] of
    the code never fails. *)
Theorem validateCRF_accepts (quality : string) :
  validateCRF quality = true ↔
  ∃ n, n ≤ 51 ∧ (quality = decimal n ∨ n < 10 ∧ quality = "0" +:+ decimal n).
Proof.
  split.
  - unfold validateCRF.
    destruct (isOneOrTwoDigits quality) eqn:Hdigits; [|done]. simpl.
    intros Hle%Nat.leb_le. exists (parseDigits quality).
    split; [done|]. clear Hle.
    unfold isOneOrTwoDigits in Hdigits.
    apply andb_true_iff in Hdigits as [[Hne Hall]%isDigits_allChars Hlen%Nat.leb_le].
    destruct quality as [|a [|b [|c r]]]; simpl in *; [done | | | lia].
    + apply andb_true_iff in Hall as [Ha%isDigit_cases _].
      repeat (apply elem_of_cons in Ha as [->|Ha]; [by left|]).
      by apply elem_of_nil in Ha.
    + apply andb_true_iff in Hall as [Ha%isDigit_cases Hb].
      apply andb_true_iff in Hb as [Hb%isDigit_cases _].
      repeat (apply elem_of_cons in Ha as [->|Ha];
              [repeat (apply elem_of_cons in Hb as [->|Hb];
                       [first [by left | right; split; [vm_compute; lia | reflexivity]]|]);
               by apply elem_of_nil in Hb|]).
      by apply elem_of_nil in Ha.
  - intros (n & Hn & Hq).
    assert (Hplain : forallb (λ n, validateCRF (decimal n)) (seq 0 52) = true)
      by (by vm_compute).
    assert (Hpadded : forallb (λ n, validateCRF ("0" +:+ decimal n)) (seq 0 10) = true)
      by (by vm_compute).
    rewrite forallb_forall in Hplain, Hpadded.
    destruct Hq as [-> | [Hn' ->]].
    + apply Hplain, in_seq. lia.
    + apply Hpadded, in_seq. lia.
Qed.

Lemma validateResolution_forms (size : string) :
  validateResolution size = true →
  (∃ width height, size = width +:+ ":" +:+ height
     ∧ isSignedDigits width = true ∧ isSignedDigits height = true)
  ∨ (∃ width height, size = width +:+ "x" +:+ height
       ∧ isDigits width = true ∧ isDigits height = true).
Proof.
  unfold validateResolution. rewrite orb_true_iff.
  intros [Hcolon | Hx]; [left | right].
  - pose proof (join_split ":" size) as Hjoin.
    destruct (Js.split ":" size) as [|w [|h [|? ?]]]; try done.
    apply andb_true_iff in Hcolon as [Hw Hh]. by exists w, h.
  - pose proof (join_split "x" size) as Hjoin.
    destruct (Js.split "x" size) as [|w [|h [|? ?]]]; try done.
    apply andb_true_iff in Hx as [Hw Hh]. by exists w, h.
Qed.

(** X21. The resolutions [validateResolution] accepts are exactly
    [W:H], where [W] and [H] are numbers with an optional minus sign, and
    [WxH], where they are numbers without sign. A number is one digit or
    more. *)
Theorem validateResolution_accepts (size : string) :
  validateResolution size = true ↔
  (∃ width height, size = width +:+ ":" +:+ height
     ∧ isSignedDigits width = true ∧ isSignedDigits height = true)
  ∨ (∃ width height, size = width +:+ "x" +:+ height
       ∧ isDigits width = true ∧ isDigits height = true).
Proof.
  split; [apply validateResolution_forms|].
  unfold validateResolution. rewrite orb_true_iff.
  intros [(w & h & -> & Hw & Hh) | (w & h & -> & Hw & Hh)]; [left | right].
  - assert (Hnone : ∀ s, isSignedDigits s = true →
              Js.allChars (λ c, negb (Ascii.eqb c ":")) s = true).
    { intros s Hs%isSignedDigits_allChars. revert Hs. apply allChars_impl.
      intros c. by destruct c as [[] [] [] [] [] [] [] []]. }
    change (":" +:+ h) with (String ":"%char h).
    rewrite split_append, split_no_sep by auto. by rewrite Hw, Hh.
  - assert (Hnone : ∀ s, isDigits s = true →
              Js.allChars (λ c, negb (Ascii.eqb c "x")) s = true).
    { intros s [_ Hs]%isDigits_allChars. revert Hs. apply allChars_impl.
      intros c. by destruct c as [[] [] [] [] [] [] [] []]. }
    change ("x" +:+ h) with (String "x"%char h).
    rewrite split_append, split_no_sep by auto. by rewrite Hw, Hh.
Qed.

(** X22. What an accepted resolution or timestamp can hold. A resolution
    [validateResolution] accepts is made of digits, [-], [:] and [x] only; a
    timestamp [validateTimestamp] accepts is made of digits, [:] and [.]
    only. Neither can hold a blank, a quote or a shell metacharacter. *)
Theorem resolution_timestamp_characters (s : string) :
  (validateResolution s = true →
   Js.allChars (λ c, Js.isDigit c || Ascii.eqb c "-" || Ascii.eqb c ":"
                     || Ascii.eqb c "x") s = true)
  ∧ (validateTimestamp s = true →
     Js.allChars (λ c, Js.isDigit c || Ascii.eqb c ":" || Ascii.eqb c ".") s = true).
Proof.
  split.
  - intros [(w & h & -> & Hw & Hh) | (w & h & -> & Hw & Hh)]%validateResolution_forms.
    + apply isSignedDigits_allChars in Hw, Hh.
      rewrite !allChars_append. simpl.
      apply andb_true_iff; split.
      * revert Hw. apply allChars_impl. intros c Hc.
        apply orb_true_iff in Hc as [-> | ->]; by rewrite ?orb_true_r.
      * revert Hh. apply allChars_impl. intros c Hc.
        apply orb_true_iff in Hc as [-> | ->]; by rewrite ?orb_true_r.
    + apply isDigits_allChars in Hw as [_ Hw], Hh as [_ Hh].
      rewrite !allChars_append. simpl.
      apply andb_true_iff; split.
      * revert Hw. apply allChars_impl. by intros c ->.
      * revert Hh. apply allChars_impl. by intros c ->.
  - unfold validateTimestamp.
    pose proof (join_split ":" s) as Hjoin.
    assert (Hdigits : ∀ t, isDigits t = true →
              Js.allChars (λ c, Js.isDigit c || Ascii.eqb c ":" || Ascii.eqb c ".") t = true).
    { intros t [_ Ht]%isDigits_allChars. revert Ht. apply allChars_impl. by intros c ->. }
    assert (Hgroup : ∀ t, isOneOrTwoDigits t = true →
              Js.allChars (λ c, Js.isDigit c || Ascii.eqb c ":" || Ascii.eqb c ".") t = true).
    { intros t [Ht _]%andb_true_iff. by apply Hdigits. }
    assert (Hseconds : ∀ t, isSeconds t = true →
              Js.allChars (λ c, Js.isDigit c || Ascii.eqb c ":" || Ascii.eqb c ".") t = true).
    { intros t. unfold isSeconds. pose proof (join_split "." t) as Ht.
      destruct (Js.split "." t) as [|a [|b [|? ?]]]; try done.
      - intros Ha. rewrite <- Ht. apply allChars_join; [done|]. auto.
      - intros [Ha Hb]%andb_true_iff. rewrite <- Ht.
        apply allChars_join; [done|]. auto. }
    destruct (Js.split ":" s) as [|a [|b [|c [|? ?]]]]; try done.
    + intros Ha. rewrite <- Hjoin. apply allChars_join; [done|]. auto.
    + intros [Ha Hb]%andb_true_iff. rewrite <- Hjoin.
      apply allChars_join; [done|]. auto.
    + intros [[Ha Hb]%andb_true_iff Hc]%andb_true_iff. rewrite <- Hjoin.
      apply allChars_join; [done|]. auto.
Qed.

Lemma resolution_timestamp_characters_witness :
  Js.allChars (λ c, Js.isDigit c || Ascii.eqb c "-" || Ascii.eqb c ":"
                    || Ascii.eqb c "x") "-1:720" = true
  ∧ Js.allChars (λ c, Js.isDigit c || Ascii.eqb c ":" || Ascii.eqb c ".") "01:30:00.5" = true.
Proof.
  split.
  - exact (proj1 (resolution_timestamp_characters "-1:720") eq_refl).
  - exact (proj2 (resolution_timestamp_characters "01:30:00.5") eq_refl).
Defined.

(** ** [truncate] and [maskSecret] *)

Section Output.

Lemma length_takeChars (n : nat) (s : string) :
  String.length (takeChars n s) = Nat.min n (String.length s).
Proof.
  revert s. induction n as [|n IH]; intros [|c r]; simpl; auto.
Qed.

Lemma length_repeatStar (n : nat) : String.length (repeatStar n) = n.
Proof. induction n; simpl; auto. Qed.

Lemma length_slice0 (s : string) (end_ : Z) :
  Z.of_nat (String.length (slice0 s end_))
  = (if (end_ <? 0)%Z then Z.max (Z.of_nat (String.length s) + end_) 0
     else Z.min end_ (Z.of_nat (String.length s)))%Z.
Proof.
  unfold slice0. rewrite length_takeChars.
  destruct (end_ <? 0)%Z eqn:Hneg; lia.
Qed.

End Output.

(** X23. The length of a truncated string. A string no longer than
    [maxLength] is returned as it is. A longer one is cut to its first
    [maxLength - 3] characters followed by [...], so that the result is
    exactly [maxLength] long, when [maxLength] is at least 3. When
    [maxLength] is below 3 the result of cutting a longer string is longer
    than [maxLength]: it always holds the three dots. *)
Theorem truncate_length (str : string) (maxLength : Z) :
  let len := Z.of_nat (String.length str) in
  let result := truncate str maxLength in
  ((len <= maxLength)%Z → result = str)
  ∧ ((maxLength < len)%Z → (3 <= maxLength)%Z →
     result = takeChars (Z.to_nat (maxLength - 3)) str +:+ "..."
     ∧ Z.of_nat (String.length result) = maxLength)
  ∧ ((maxLength < len)%Z → (maxLength < 3)%Z →
     Z.of_nat (String.length result) = (Z.max (len + maxLength - 3) 0 + 3)%Z
     ∧ (maxLength < Z.of_nat (String.length result))%Z).
Proof.
  cbv zeta. unfold truncate. split; [|split].
  - intros Hle%Z.leb_le. by rewrite Hle.
  - intros Hlt%Z.leb_gt Hmin. rewrite Hlt. split.
    + unfold slice0. destruct (maxLength - 3 <? 0)%Z eqn:Hneg; [lia|].
      do 2 f_equal. lia.
    + rewrite length_append, Nat2Z.inj_add, length_slice0. simpl.
      destruct (maxLength - 3 <? 0)%Z eqn:Hneg; lia.
  - intros Hlt%Z.leb_gt Hmax. rewrite Hlt.
    rewrite length_append, Nat2Z.inj_add, length_slice0. simpl.
    destruct (maxLength - 3 <? 0)%Z eqn:Hneg; lia.
Qed.

Lemma truncate_length_witness :
  truncate "hello" 10 = "hello"
  ∧ truncate "hello world" 8 = "hello..."
  ∧ Z.of_nat (String.length (truncate "abcdef" 2)) = 8%Z.
Proof.
  split; [|split].
  - exact (proj1 (truncate_length "hello" 10) ltac:(simpl; lia)).
  - exact (proj1 (proj1 (proj2 (truncate_length "hello world" 8))
                    ltac:(simpl; lia) ltac:(lia))).
  - exact (proj1 (proj2 (proj2 (truncate_length "abcdef" 2))
                    ltac:(simpl; lia) ltac:(lia))).
Defined.

(** X24. What a masked secret shows. [maskSecret] never returns more than
    24 characters. Secrets of four characters or fewer all give [****], so
    neither their content nor their length shows. Two longer secrets that
    start with the same four characters and have the same length, or are
    both at least 24 long, give the same result: nothing after the fourth
    character shows. *)
Theorem maskSecret_hides (value value' : string) :
  String.length (maskSecret value) ≤ 24
  ∧ (String.length value ≤ 4 → String.length value' ≤ 4 →
     maskSecret value = maskSecret value')
  ∧ (4 < String.length value →
     maskSecret value
     = takeChars 4 value +:+ repeatStar (Nat.min (String.length value - 4) 20))
  ∧ (takeChars 4 value = takeChars 4 value' →
     Nat.min (String.length value) 24 = Nat.min (String.length value') 24 →
     maskSecret value = maskSecret value').
Proof.
  assert (Hlong : ∀ v, 4 < String.length v →
            maskSecret v = takeChars 4 v +:+ repeatStar (Nat.min (String.length v - 4) 20)).
  { intros v Hv. unfold maskSecret.
    destruct (String.length v <=? 4)%nat eqn:Hle; [apply Nat.leb_le in Hle; lia|].
    unfold slice0. cbv zeta. change (4 <? 0)%Z with false. cbv iota.
    by replace (Z.to_nat (Z.min 4 (Z.of_nat (String.length v)))) with 4 by lia. }
  assert (Hshort : ∀ v, String.length v ≤ 4 → maskSecret v = "****").
  { intros v Hv%Nat.leb_le. unfold maskSecret. by rewrite Hv. }
  split; [|split; [|split]].
  - destruct (Nat.le_gt_cases (String.length value) 4) as [Hle | Hgt].
    + rewrite Hshort by done. simpl. lia.
    + rewrite Hlong by done.
      rewrite length_append, length_takeChars, length_repeatStar. lia.
  - intros Hv Hv'. by rewrite !Hshort.
  - apply Hlong.
  - intros Hprefix Hlen.
    destruct (Nat.le_gt_cases (String.length value) 4) as [Hle | Hgt].
    + rewrite !Hshort by lia. done.
    + rewrite !Hlong by lia. rewrite Hprefix. do 2 f_equal. lia.
Qed.

Lemma maskSecret_hides_witness :
  maskSecret "abc" = maskSecret "wxyz"
  ∧ maskSecret "secret_key_12345" = maskSecret "secrXXXXXXXXXXXX".
Proof.
  split.
  - exact (proj1 (proj2 (maskSecret_hides "abc" "wxyz"))
             ltac:(simpl; lia) ltac:(simpl; lia)).
  - exact (proj2 (proj2 (proj2 (maskSecret_hides "secret_key_12345" "secrXXXXXXXXXXXX")))
             eq_refl eq_refl).
Defined.

(** ** What the emitters ignore *)

(** X25. The Drift emitter ignores foreign keys, and a primary key that
    does not auto-increment. The declaration of a column depends only on its
    name, its type, whether it is nullable, its default value, and whether
    it is both a primary key and auto-incremented: two descriptors that
    agree on these give the same declaration. In particular the class
    [columnsToDrift] returns is the same with the foreign-key fields
    removed. *)
Theorem driftColumn_depends_on (c1 c2 : ColumnSpec) :
  (name c1 = name c2 → type c1 = type c2 →
   Js.truthy (isNullable c1) = Js.truthy (isNullable c2) →
   defaultValue c1 = defaultValue c2 →
   Js.truthy (isPrimaryKey c1) && Js.truthy (isAutoIncrement c1)
   = Js.truthy (isPrimaryKey c2) && Js.truthy (isAutoIncrement c2) →
   driftColumn c1 = driftColumn c2)
  ∧ ∀ tableName columns,
      columnsToDrift tableName (map withoutForeignKey columns)
      = columnsToDrift tableName columns.
Proof.
  split.
  - unfold driftColumn. by intros -> -> -> -> ->.
  - intros tableName columns. unfold columnsToDrift.
    do 3 f_equal. rewrite map_map. by apply map_ext.
Qed.

Lemma driftColumn_depends_on_witness :
  driftColumn (setForeignKeyTable (setForeignKey (setPrimaryKey (newColumn "userId" "uuid") true) true) "users")
  = driftColumn (newColumn "userId" "uuid").
Proof.
  exact (proj1 (driftColumn_depends_on
                  (setForeignKeyTable
                     (setForeignKey (setPrimaryKey (newColumn "userId" "uuid") true) true)
                     "users")
                  (newColumn "userId" "uuid"))
           eq_refl eq_refl eq_refl eq_refl eq_refl).
Defined.

(** X26. Auto-increment without a primary key has no effect. For a column
    that is not a primary key, both emitters give the same line with and
    without the auto-increment flag: [serial] alone does not make a column
    [SERIAL]. *)
Theorem autoIncrement_needs_primary_key (col : ColumnSpec) :
  Js.truthy (isPrimaryKey col) = false →
  sqlLine col = sqlLine (withoutAutoIncrement col)
  ∧ driftColumn col = driftColumn (withoutAutoIncrement col).
Proof.
  intros Hpk. unfold sqlLine, driftColumn, withoutAutoIncrement; simpl.
  by rewrite Hpk.
Qed.

Lemma autoIncrement_needs_primary_key_witness :
  sqlLine (setAutoIncrement (newColumn "n" "integer") true) = "  n INTEGER NOT NULL"
  ∧ driftColumn (setAutoIncrement (newColumn "n" "integer") true)
    = "  integerColumn get n => integer()();".
Proof.
  exact (autoIncrement_needs_primary_key
           (setAutoIncrement (newColumn "n" "integer") true) eq_refl).
Defined.

(** ** More on single definitions and modifiers *)

Section DefaultModifier.





End DefaultModifier.

(** X27. A definition [name:type] without modifiers. When neither part
    holds a colon and neither is blank, [parseColumn] returns the descriptor
    with the trimmed name, the normalized trimmed type, and no optional
    field: no flag, no foreign key, no default. *)
Theorem parseColumn_name_type (columnName columnType : string) :
  Js.allChars (λ c, negb (Ascii.eqb c ":")) columnName = true →
  Js.allChars (λ c, negb (Ascii.eqb c ":")) columnType = true →
  Js.trim columnName ≠ "" → Js.trim columnType ≠ "" →
  parseColumn (columnName +:+ ":" +:+ columnType)
  = Ok (newColumn (Js.trim columnName) (normalizeType (Js.trim columnType))).
Proof.
  intros Hname Htype Hn%isEmpty_false Ht%isEmpty_false. unfold parseColumn.
  change (":" +:+ columnType) with (String ":"%char columnType).
  rewrite split_append, split_no_sep by done. simpl.
  by rewrite Hn, Ht.
Qed.

Lemma parseColumn_name_type_witness :
  parseColumn " title : String "
  = Ok (newColumn "title" "text").
Proof.
  exact (parseColumn_name_type " title " " String " eq_refl eq_refl
           ltac:(discriminate) ltac:(discriminate)).
Defined.


